(** * Go board recognition: the board session and the image mask

    A shallow embedding of [gr/board.py] (class [GrBoard]) and of the
    hit-testing helpers and the [ImageMask] class of [gr/ui_extra.py].

    Conventions.
    - Python [None] is [None] of an [option]; a raised exception is
      [Raise e] of an [outcome].
    - Pixel and canvas coordinates are integers ([Z]).  Tk hands the
      callbacks whole-numbered floats; on those [max], [min], [==], [<=],
      [+] and [-] agree with the integer operations.
    - The factors, the spacing and the edges of a resize are Python
      floats: IEEE binary64 numbers, [spec_float] of the standard
      library with every operation rounding to nearest, ties to even.
      A quotient of two pixel counts that is cut to an integer at once
      ([int(w / 2)]) is computed on rationals ([Q]); for such integers
      the rounded quotient has the same integer part.
    - Logging calls have no effect on the modelled state and are left out. *)

From Stdlib Require Import ZArith QArith Lia Ascii String.
From Stdlib Require SpecFloat.
From stdpp Require Import base option list strings gmap.

Set Warnings "-register-all".
Local Open Scope Z_scope.

(** ** Exceptions *)

Inductive exn : Type :=
| Exception (msg : string)
| TypeError
| KeyError (key : string)
| IndexError
| ValueError
| OverflowError
| OSError (msg : string).

Inductive outcome (A : Type) : Type :=
| Ok (a : A)
| Raise (e : exn).
Arguments Ok {A} a.
Arguments Raise {A} e.

Definition obind {A B} (m : outcome A) (k : A → outcome B) : outcome B :=
  match m with
  | Ok a => k a
  | Raise e => Raise e
  end.

Notation "'let!' x ':=' m 'in' k" := (obind m (fun x => k))
  (at level 10, x name, m at level 100, k at level 200).

(** [range(n)]: the integers [0, 1, ..., n-1]; empty when [n <= 0]. *)
Definition range (n : Z) : list Z := Z.of_nat <$> seq 0 (Z.to_nat n).

(** [l[i]] on a Python list: [IndexError] out of range (indices here are
    the literals 0..3, so negative indexing does not occur). *)
Definition getitem {A} (l : list A) (i : nat) : outcome A :=
  match l !! i with
  | Some v => Ok v
  | None => Raise IndexError
  end.

(** [l[i] = v] on a Python list. *)
Definition setitem {A} (l : list A) (i : nat) (v : A) : outcome (list A) :=
  if bool_decide (i < length l)%nat then Ok (<[i:=v]> l) else Raise IndexError.

(** ** Hit testing ([ui_extra.py], [is_on] and [is_on_w]) *)

Definition point : Type := Z * Z.

Definition collinear (a b c : point) : bool :=
  (b.1 - a.1) * (c.2 - a.2) =? (c.1 - a.1) * (b.2 - a.2).

Definition within (p q r : Z) : bool :=
  (p <=? q) && (q <=? r) || (r <=? q) && (q <=? p).

Definition is_on (a b c : point) : bool :=
  collinear a b c
  && (if negb (a.1 =? b.1) then within a.1 c.1 b.1
      else within a.2 c.2 b.2).

(** The two nested [for] loops return [True] at the first candidate that
    passes [is_on] and [False] when none does. *)
Definition is_on_w (a b c : point) (delta : Z) : bool :=
  existsb (fun i =>
    let x := c.1 + i - 1 in
    existsb (fun j =>
      let y := c.2 + j - 1 in
      is_on a b (x, y)) (range (delta * 3))) (range (delta * 3)).

(** ** The image mask ([ui_extra.py], class [ImageMask]) *)

(** What the mask needs from its Tk canvas: the window-to-canvas
    coordinate conversions and the coordinates the canvas reports for a
    rectangle item that was given four coordinates. *)
Class Canvas : Type := {
  canvasx : Z → Z;
  canvasy : Z → Z;
  rect_coords : Z * Z * Z * Z → Z * Z * Z * Z
}.

Record ImageMask : Type := mkImageMask {
  image_shape : Z * Z;                 (* (height, width) *)
  min_dist : Z;
  allow_change : bool;
  mask : list Z;                       (* [left, top, right, bottom] *)
  mask_area : option (list (list Z)); (* the four shading polygons *)
  mask_rect : option (Z * Z * Z * Z);  (* the rectangle item, as last set *)
  last_cursor : option string;
  drag_side : option Z
}.

Definition set_mask (v : list Z) (m : ImageMask) : ImageMask :=
  mkImageMask (image_shape m) (min_dist m) (allow_change m) v
    (mask_area m) (mask_rect m) (last_cursor m) (drag_side m).

Definition set_mask_area (v : option (list (list Z))) (m : ImageMask) : ImageMask :=
  mkImageMask (image_shape m) (min_dist m) (allow_change m) (mask m)
    v (mask_rect m) (last_cursor m) (drag_side m).

Definition set_mask_rect (v : option (Z * Z * Z * Z)) (m : ImageMask) : ImageMask :=
  mkImageMask (image_shape m) (min_dist m) (allow_change m) (mask m)
    (mask_area m) v (last_cursor m) (drag_side m).

Definition set_drag_side (v : option Z) (m : ImageMask) : ImageMask :=
  mkImageMask (image_shape m) (min_dist m) (allow_change m) (mask m)
    (mask_area m) (mask_rect m) (last_cursor m) v.

Section ImageMaskModel.
Context `{Canvas}.

Definition default_mask (m : ImageMask) : ImageMask :=
  set_mask [min_dist m; min_dist m;
            (image_shape m).2 - min_dist m;
            (image_shape m).1 - min_dist m] m.

Definition get_mask_rect_side (m : ImageMask) (x y : Z) : option Z :=
  match mask_rect m with
  | None => None
  | Some r =>
      let p := (canvasx x, canvasy y) in
      let '(b0, b1, b2, b3) := rect_coords r in
      if is_on_w (b0, b1) (b0, b3) p 1 then Some 0
      else if is_on_w (b0, b1) (b2, b1) p 1 then Some 1
      else if is_on_w (b2, b1) (b2, b3) p 1 then Some 2
      else if is_on_w (b0, b3) (b2, b3) p 1 then Some 3
      else None
  end.

Definition draw_mask_shading (m : ImageMask) : outcome ImageMask :=
  let ix := (image_shape m).2 in
  let iy := (image_shape m).1 in
  let! mx := getitem (mask m) 0 in
  let! my := getitem (mask m) 1 in
  let! wx := getitem (mask m) 2 in
  let! wy := getitem (mask m) 3 in
  Ok (set_mask_area (Some
    [ [0; 0; ix; 0; ix; my; 0; my; 0; 0];
      [0; my; mx; my; mx; iy; 0; iy; 0; my];
      [mx; wy; ix; wy; ix; iy; mx; iy; mx; wy];
      [wx; my; ix; my; ix; wy; wx; wy; wx; my] ]) m).

Definition draw_mask_rect (m : ImageMask) : outcome ImageMask :=
  let! mx := getitem (mask m) 0 in
  let! my := getitem (mask m) 1 in
  let! wx := getitem (mask m) 2 in
  let! wy := getitem (mask m) 3 in
  Ok (set_mask_rect (Some (mx, my, wx, wy)) m).

Definition show (m : ImageMask) : outcome ImageMask :=
  let! m := draw_mask_shading m in
  draw_mask_rect m.

(** [ImageMask(canvas, image_shape, mask, allow_change, f_show, min_dist)] *)
Definition init (shape : Z * Z) (msk : option (list Z))
    (allow f_show : bool) (dist : Z) : outcome ImageMask :=
  let m := mkImageMask shape dist allow (default [] msk) None None None None in
  let m := match msk with
           | None => default_mask m
           | Some _ => m
           end in
  if f_show then show m else Ok m.

(** [drag_callback(event)] with [event.x = ex], [event.y = ey].  An
    edge is latched only while the rectangle item is on the canvas; the
    item is then moved with [canvas.coords]. *)
Definition drag_callback (m : ImageMask) (ex ey : Z) : outcome ImageMask :=
  let m :=
    match drag_side m with
    | None => set_drag_side (get_mask_rect_side m ex ey) m
    | Some _ => m
    end in
  match drag_side m with
  | None => Ok m
  | Some side =>
      let p := (canvasx ex, canvasy ey) in
      let! msk :=
        (if side =? 0 then setitem (mask m) 0 (Z.max p.1 (min_dist m))
         else if side =? 1 then setitem (mask m) 1 (Z.max p.2 (min_dist m))
         else if side =? 2 then
           setitem (mask m) 2 (Z.min p.1 ((image_shape m).2 - min_dist m))
         else if side =? 3 then
           setitem (mask m) 3 (Z.min p.2 ((image_shape m).1 - min_dist m))
         else Ok (mask m)) in
      let m := set_mask msk m in
      let! m0 := getitem (mask m) 0 in
      let! m1 := getitem (mask m) 1 in
      let! m2 := getitem (mask m) 2 in
      let! m3 := getitem (mask m) 3 in
      let m := set_mask_rect
                 (match mask_rect m with
                  | Some _ => Some (m0, m1, m2, m3)
                  | None => None
                  end) m in
      draw_mask_shading m
  end.

Definition end_drag_callback (m : ImageMask) : ImageMask :=
  set_drag_side None m.

End ImageMaskModel.

(** ** Python string helpers used by [find_stone] *)

Definition ord (c : ascii) : Z := Z.of_nat (nat_of_ascii c).

(** [str.upper] on ASCII text. *)
Definition upper_char (c : ascii) : ascii :=
  let n := nat_of_ascii c in
  if ((97 <=? n) && (n <=? 122))%nat then ascii_of_nat (n - 32) else c.

Fixpoint upper (s : string) : string :=
  match s with
  | EmptyString => EmptyString
  | String c r => String (upper_char c) (upper r)
  end.

(** [s[0]] *)
Definition first_char (s : string) : outcome ascii :=
  match s with
  | EmptyString => Raise IndexError
  | String c _ => Ok c
  end.

(** [s[1:len(s)]] *)
Definition tail_from_1 (s : string) : string :=
  match s with
  | EmptyString => EmptyString
  | String _ r => r
  end.

(** The white space that [int()] skips around an ASCII [str]: tab,
    newline, vertical tab, form feed, carriage return and blank. *)
Definition is_space (c : ascii) : bool :=
  let n := nat_of_ascii c in
  (((9 <=? n) && (n <=? 13)) || (n =? 32))%nat.

Definition digit_val (c : ascii) : option Z :=
  let n := nat_of_ascii c in
  if ((48 <=? n) && (n <=? 57))%nat then Some (Z.of_nat (n - 48)) else None.

Fixpoint lstrip (s : string) : string :=
  match s with
  | EmptyString => EmptyString
  | String c r => if is_space c then lstrip r else s
  end.

Definition strip (s : string) : string :=
  String.rev (lstrip (String.rev (lstrip s))).

(** Decimal digits, with single underscores allowed between digits. *)
Fixpoint digits (acc : Z) (after_digit : bool) (s : string) : option Z :=
  match s with
  | EmptyString => if after_digit then Some acc else None
  | String c r =>
      match digit_val c with
      | Some d => digits (10 * acc + d) true r
      | None =>
          if (Ascii.eqb c "_" && after_digit)%bool then digits acc false r
          else None
      end
  end.

(** [int(s)] for an ASCII [str]: surrounding white space is dropped, a
    sign may come first, then decimal digits. *)
Definition py_int (s : string) : outcome Z :=
  let t := strip s in
  let r :=
    match t with
    | String "+" u => digits 0 false u
    | String "-" u => Z.opp <$> digits 0 false u
    | _ => digits 0 false t
    end in
  match r with
  | Some z => Ok z
  | None => Raise ValueError
  end.

(** [int(x)] for a float [x] given as the rational it stands for: the
    fraction is dropped (rounding toward zero). *)
Definition int_of_float (x : Q) : Z := Z.quot (Qnum x) (Zpos (Qden x)).

(** ** Python floats *)

(** A [float] is an IEEE binary64 number: 53 bits of precision,
    exponents below 1024. *)
Definition float : Type := SpecFloat.spec_float.

(** The float an integer is converted to before it is multiplied by a
    float: the nearest one. *)
Definition float_of_int (z : Z) : float :=
  SpecFloat.binary_normalize 53 1024 z 0 false.

(** [a * b] on floats: the exact product rounded to nearest, ties to
    even. *)
Definition float_mul (a b : float) : float := SpecFloat.SFmul 53 1024 a b.

(** [int(x)] for a float [x]: the fraction is dropped (rounding toward
    zero); an infinity raises [OverflowError] and a NaN [ValueError]. *)
Definition int_of_binary64 (x : float) : outcome Z :=
  match x with
  | SpecFloat.S754_zero _ => Ok 0
  | SpecFloat.S754_infinity _ => Raise OverflowError
  | SpecFloat.S754_nan => Raise ValueError
  | SpecFloat.S754_finite s m e =>
      let n := if s then Zneg m else Zpos m in
      Ok (if 0 <=? e then n * 2 ^ e else n ÷ 2 ^ (- e))
  end.

(** Python's [max(a, b)]: [b] only when [b > a]. *)
Definition py_max (a b : float) : float :=
  if SpecFloat.SFltb a b then b else a.

(** ** Stones, results and parameters *)

(** Modelled from the spec: the index constants [GR_X], [GR_Y], [GR_A],
    [GR_B], [GR_R] of [gr/grdef.py] are not among the sources.  A stone
    is a row of the detector's array, the "five-tuple of (pixel-x,
    pixel-y, grid-column, grid-row, pixel-radius)", in the order
    [x, y, a, b, r] that the docstring of [all_stones] gives; the
    constants name its fields. *)
Record stone : Type := mkStone {
  GR_X : Z;
  GR_Y : Z;
  GR_A : Z;
  GR_B : Z;
  GR_R : Z
}.

(** [st[GR_X] = v], [st[GR_Y] = v] and [st[GR_R] = v] on a row. *)
Definition set_GR_X (v : Z) (st : stone) : stone :=
  mkStone v (GR_Y st) (GR_A st) (GR_B st) (GR_R st).

Definition set_GR_Y (v : Z) (st : stone) : stone :=
  mkStone (GR_X st) v (GR_A st) (GR_B st) (GR_R st).

Definition set_GR_R (v : Z) (st : stone) : stone :=
  mkStone (GR_X st) (GR_Y st) (GR_A st) (GR_B st) v.

(** [st - 1] on an array row subtracts from every entry. *)
Definition stone_sub (st : stone) (k : Z) : stone :=
  mkStone (GR_X st - k) (GR_Y st - k) (GR_A st - k) (GR_B st - k) (GR_R st - k).

(** An entry of [list(st) + ['B']]. *)
Inductive item : Type :=
| INum (z : Z)
| IStr (s : string).

Definition stone_list (st : stone) : list item :=
  [INum (GR_X st); INum (GR_Y st); INum (GR_A st); INum (GR_B st); INum (GR_R st)].

(** Values held by the recognition parameters. *)
Inductive pvalue : Type :=
| PNone
| PNum (z : Z)
| PBool (b : bool)
| PList (l : list pvalue).

(** [len(v)] *)
Definition py_len (v : pvalue) : outcome Z :=
  match v with
  | PList l => Ok (Z.of_nat (length l))
  | _ => Raise TypeError
  end.

Definition BOARD_PARAM_EXT : string := ".gpar".

Section BoardModel.
Context {image : Type}.

(** Modelled from the spec: the keys [GR_STONES_B], [GR_STONES_W],
    [GR_EDGES], [GR_SPACING], ... of [gr/grdef.py] are not among the
    sources.  The results dictionary holds the "black-stone list,
    white-stone list, edge rectangle, grid spacing, cross-count, board
    size, image size, plus auxiliary debug images keyed by name"; a stone
    list may be [None] as the detector leaves it.  The edge rectangle and
    the spacing are pairs of floats. *)
Record result : Type := mkResult {
  GR_STONES_B : option (list stone);
  GR_STONES_W : option (list stone);
  GR_EDGES : (float * float) * (float * float);
  GR_SPACING : float * float;
  GR_NUM_CROSS_H : Z;
  GR_NUM_CROSS_W : Z;
  GR_BOARD_SIZE : Z;
  GR_IMAGE_SIZE : Z * Z;
  GR_DEBUG : gmap string image
}.

Definition set_STONES_B (v : option (list stone)) (r : result) : result :=
  mkResult v (GR_STONES_W r) (GR_EDGES r) (GR_SPACING r) (GR_NUM_CROSS_H r)
    (GR_NUM_CROSS_W r) (GR_BOARD_SIZE r) (GR_IMAGE_SIZE r) (GR_DEBUG r).

Definition set_STONES_W (v : option (list stone)) (r : result) : result :=
  mkResult (GR_STONES_B r) v (GR_EDGES r) (GR_SPACING r) (GR_NUM_CROSS_H r)
    (GR_NUM_CROSS_W r) (GR_BOARD_SIZE r) (GR_IMAGE_SIZE r) (GR_DEBUG r).

Definition set_SPACING (v : float * float) (r : result) : result :=
  mkResult (GR_STONES_B r) (GR_STONES_W r) (GR_EDGES r) v (GR_NUM_CROSS_H r)
    (GR_NUM_CROSS_W r) (GR_BOARD_SIZE r) (GR_IMAGE_SIZE r) (GR_DEBUG r).

Definition set_EDGES (v : (float * float) * (float * float)) (r : result)
  : result :=
  mkResult (GR_STONES_B r) (GR_STONES_W r) v (GR_SPACING r) (GR_NUM_CROSS_H r)
    (GR_NUM_CROSS_W r) (GR_BOARD_SIZE r) (GR_IMAGE_SIZE r) (GR_DEBUG r).

(** The board object. *)
Record GrBoard : Type := mkGrBoard {
  _params : gmap string pvalue;
  _res : option result;
  _img : option image;
  _img_file : option string;
  _src_img : option image;
  _src_img_file : option string;
  _gen_board : bool
}.

Definition set_params (v : gmap string pvalue) (s : GrBoard) : GrBoard :=
  mkGrBoard v (_res s) (_img s) (_img_file s) (_src_img s)
    (_src_img_file s) (_gen_board s).

Definition set_res (v : option result) (s : GrBoard) : GrBoard :=
  mkGrBoard (_params s) v (_img s) (_img_file s) (_src_img s)
    (_src_img_file s) (_gen_board s).

Definition set_img (v : option image) (s : GrBoard) : GrBoard :=
  mkGrBoard (_params s) (_res s) v (_img_file s) (_src_img s)
    (_src_img_file s) (_gen_board s).

Definition set_img_file (v : option string) (s : GrBoard) : GrBoard :=
  mkGrBoard (_params s) (_res s) (_img s) v (_src_img s)
    (_src_img_file s) (_gen_board s).

Definition set_src_img (v : option image) (s : GrBoard) : GrBoard :=
  mkGrBoard (_params s) (_res s) (_img s) (_img_file s) v
    (_src_img_file s) (_gen_board s).

Definition set_src_img_file (v : option string) (s : GrBoard) : GrBoard :=
  mkGrBoard (_params s) (_res s) (_img s) (_img_file s) (_src_img s)
    v (_gen_board s).

Definition set_gen_board (v : bool) (s : GrBoard) : GrBoard :=
  mkGrBoard (_params s) (_res s) (_img s) (_img_file s) (_src_img s)
    (_src_img_file s) v.

End BoardModel.
Arguments result : clear implicits.
Arguments GrBoard : clear implicits.

(** What [GrBoard] calls outside [board.py]: the image codec and warps
    ([cv2], [imutils], [gr.utils]), the recognition functions of [gr.gr],
    [GrParams.assign] and the constants of [gr.grdef], and the file
    system.  None of them is among the sources; they are taken as given.
    The imaging functions return a new image and leave their argument as
    it was.  The detector is handed the parameters object and may write
    to it, so [process_img] also returns the parameters it leaves.
    [with_suffix f ext] is [Path(f).with_suffix(ext)] for the name [f]
    of an image file.  [fits_stone] tells which integers the element
    type of the detector's stone arrays holds.  Of the SGF library only what can make it raise
    is taken: [Sgf_game_check size] stands for [Sgf_game(size)] and
    [set_move_check size colour move] for [node.set_move(colour, move)]
    in a game of that size; [write_bytes f] stands for opening [f] for
    writing and writing the serialised game to it. *)
Class Collaborators (image : Type) : Type := {
  imread : string → option image;
  four_point_transform : image → list pvalue → outcome image;
  resize2 : image → option Z → outcome (image * (float * float));
  fits_stone : Z → bool;
  process_img : image → gmap string pvalue →
                option (result image) * gmap string pvalue;
  generate_board : list Z → option (result image) → image;
  find_coord : Z → Z → option (list stone) → option stone;
  find_position : Z → Z → option (list stone) → option stone;
  assign : gmap string pvalue → gmap string pvalue → option bool →
           gmap string pvalue;
  DEF_BOARD_SIZE : Z;
  DEF_IMG_SIZE : list Z;
  with_suffix : string → string → string;
  is_file : string → bool;
  json_load : string → outcome (gmap string pvalue);
  Sgf_game_check : pvalue → outcome unit;
  set_move_check : pvalue → string → Z * Z → outcome unit;
  write_bytes : string → outcome unit
}.

(** Modelled from the spec: [find_position] of [gr/gr.py] is not among
    the sources; it "looks up a stone by a grid coordinate".  Used where
    a concrete lookup is run. *)
Definition find_position_grid (a b : Z) (stones : option (list stone))
  : option stone :=
  l ← stones;
  snd <$> list_find (λ st, GR_A st = a ∧ GR_B st = b) l.

(** Modelled from the spec: [find_coord] of [gr/gr.py] is not among the
    sources; it looks up by "a pixel coordinate (nearest/matching stone
    under detection radius)". *)
Definition find_coord_radius (x y : Z) (stones : option (list stone))
  : option stone :=
  l ← stones;
  snd <$> list_find (λ st, Z.abs (GR_X st - x) ≤ GR_R st
                           ∧ Z.abs (GR_Y st - y) ≤ GR_R st) l.

(** The game record handed to the SGF writer: the board size and the
    moves in the order [set_move] received them, each a colour and a
    (row, column) pair. *)
Record Sgf_game : Type := mkSgf_game {
  sgf_size : pvalue;
  sgf_moves : list (string * (Z * Z))
}.

Section GrBoardOps.
Context {image : Type} `{!Collaborators image}.

Abbreviation board := (GrBoard image).

(** Methods run on the board and either return or raise. *)
Definition M (A : Type) : Type := board → outcome A * board.

Definition ret {A} (a : A) : M A := λ s, (Ok a, s).

Definition bind {A B} (m : M A) (k : A → M B) : M B := λ s,
  match m s with
  | (Ok a, s') => k a s'
  | (Raise e, s') => (Raise e, s')
  end.

#[global] Instance M_bind : MBind M := λ A B k m, bind m k.

Definition raise {A} (e : exn) : M A := λ s, (Raise e, s).
Definition gets {A} (f : board → A) : M A := λ s, (Ok (f s), s).
Definition modify (f : board → board) : M unit := λ s, (Ok tt, f s).
Definition lift {A} (o : outcome A) : M A := λ s, (o, s).

(** Modelled from the spec: [GrParams] of [gr/params.py] is not among the
    sources; the parameters are a "mapping of named recognition options
    to values", read and written by key like a dictionary.  This is
    [self._params.get(key)]. *)
Definition params_get (key : string) (s : board) : pvalue :=
  default PNone (_params s !! key).

(** Modelled from the spec: [self._params[key]] on that mapping. *)
Definition params_getitem (key : string) : M pvalue := λ s,
  match _params s !! key with
  | Some v => (Ok v, s)
  | None => (Raise (KeyError key), s)
  end.

(** Modelled from the spec: [self._params[key] = v] on that mapping; the
    key is kept, with [None] as its value when [v] is [None]. *)
Definition params_setitem (key : string) (v : pvalue) : M unit :=
  modify (λ s, set_params (<[key := v]> (_params s)) s).

(** [self._res[...] = ...]: the dictionary held in [_res] is updated in place. *)
Definition res_update (f : result image → result image) : M unit :=
  modify (λ s, set_res (f <$> _res s) s).

(** [self._res[key]], [key] one of the [GR_*] names. *)
Definition res_getitem {A} (f : result image → A) : M A := λ s,
  match _res s with
  | Some r => (Ok (f r), s)
  | None => (Raise TypeError, s)
  end.

Definition is_none {A} (o : option A) : bool :=
  match o with
  | None => true
  | Some _ => false
  end.

Definition process : M unit := λ s,
  match _img s, _gen_board s with
  | Some img, false =>
      let '(res, params) := process_img img (_params s) in
      let s := set_res res (set_params params s) in
      if is_none (_res s) then (Ok tt, s)
      else
        (b ← res_getitem GR_STONES_B;
         (if is_none b then res_update (set_STONES_B (Some [])) else ret tt);;
         w ← res_getitem GR_STONES_W;
         (if is_none w then res_update (set_STONES_W (Some [])) else ret tt)) s
  | _, _ => (Ok tt, set_res None s)
  end.

Definition transform_image (transform_rect : pvalue) : M unit :=
  match transform_rect with
  | PNone => ret tt
  | _ =>
      n ← lift (py_len transform_rect) ;
      if n =? 4 then
        img ← gets _img ;
        img' ← lift (match img, transform_rect with
                     | Some i, PList l => four_point_transform i l
                     | _, _ => Raise TypeError
                     end) ;
        modify (set_img (Some img')) ;;
        params_setitem "TRANSFORM" transform_rect
      else ret tt
  end.

Definition load_params (filename : string) : M unit :=
  p ← lift (json_load filename) ;
  modify (λ s, set_params (assign (_params s) p (Some true)) s).

Definition load_image (filename : string) (f_with_params f_process : bool)
  : M bool :=
  match imread filename with
  | None => raise (Exception ("Image file not found " +:+ filename))
  | Some img =>
      modify (set_gen_board false) ;;
      modify (set_img_file (Some filename)) ;;
      modify (set_src_img_file (Some filename)) ;;
      modify (set_img (Some img)) ;;
      modify (set_src_img (Some img)) ;;
      modify (set_res None) ;;
      f_params_loaded ←
        (if f_with_params then
           let params_file := with_suffix filename BOARD_PARAM_EXT in
           if is_file params_file
           then load_params params_file ;; ret true
           else ret false
         else ret false) ;
      has_transform ← gets (λ s, bool_decide (is_Some (_params s !! "TRANSFORM"))) ;
      (if has_transform : bool
       then t ← params_getitem "TRANSFORM" ; transform_image t
       else ret tt) ;;
      (if f_process then process else ret tt) ;;
      ret f_params_loaded
  end.

Definition generate (shape : list Z) : M unit :=
  modify (λ s, set_img (Some (generate_board shape (_res s))) s) ;;
  modify (set_img_file None) ;;
  modify (set_gen_board true).

(** The [params] setter. *)
Definition params_setter (p : gmap string pvalue) : M unit :=
  modify (λ s, set_params (assign (_params s) p None) s) ;;
  modify (set_gen_board false).

Definition reset_image : M unit :=
  modify (λ s, set_img (_src_img s) s) ;;
  params_setitem "TRANSFORM" PNone ;;
  params_setitem "BOARD_EDGES" PNone ;;
  params_setitem "BOARD_SIZE" PNone.

End GrBoardOps.

Section GrBoardQueries.
Context {image : Type} `{!Collaborators image}.

Abbreviation board := (GrBoard image).

(** [int(x * f)] for an entry [x] of a stone row and a float [f], as it
    is assigned to an entry of the row: the integer is converted to a
    float, the product rounded, its fraction dropped, and the result
    stored when the row's element type holds it. *)
Definition scale_entry (x : Z) (f : float) : outcome Z :=
  let! v := int_of_binary64 (float_mul (float_of_int x) f) in
  if fits_stone v then Ok v else Raise OverflowError.

(** The body of the loop of [resize_stones] on one row.  The three
    entries are assigned in place one after the other, so the row is
    returned as an exception leaves it. *)
Definition resize_stone (scale : float * float) (st : stone)
  : outcome unit * stone :=
  match scale_entry (GR_X st) scale.1 with
  | Raise e => (Raise e, st)
  | Ok x =>
      let st := set_GR_X x st in
      match scale_entry (GR_Y st) scale.2 with
      | Raise e => (Raise e, st)
      | Ok y =>
          let st := set_GR_Y y st in
          match scale_entry (GR_R st) (py_max scale.1 scale.2) with
          | Raise e => (Raise e, st)
          | Ok r => (Ok tt, set_GR_R r st)
          end
      end
  end.

(** The inner helper of [resize_board].  The rows are views of the
    array that is passed, so the loop rewrites that array in place: the
    function gives the array as the loop leaves it, with whether the
    loop ran to its end; the array it returns then has the same rows. *)
Fixpoint resize_stones (stones : list stone) (scale : float * float)
  : outcome unit * list stone :=
  match stones with
  | [] => (Ok tt, [])
  | st :: rest =>
      match resize_stone scale st with
      | (Raise e, st') => (Raise e, st' :: rest)
      | (Ok _, st') =>
          let '(o, rest') := resize_stones rest scale in
          (o, st' :: rest')
      end
  end.

(** Iterating over an absent stone list raises. *)
Definition iter_stones (o : option (list stone)) : outcome (list stone) :=
  match o with
  | Some l => Ok l
  | None => Raise TypeError
  end.

(** [resize_board(max_size, scale)].  The [scale] argument is
    overwritten by the scale that [resize2] returns for [max_size].  A
    stone array is rewritten in place before it is assigned anew, so the
    rows that a loop has scaled stay scaled when the loop raises. *)
Definition resize_board (max_size : option Z) (scale : option (float * float))
  : M (image:=image) unit :=
  img ← gets _img;
  '(img', scale) ← lift (match img with
                         | Some i => resize2 i max_size
                         | None => Raise TypeError
                         end);
  modify (set_img (Some img'));;
  res ← gets _res;
  if is_none res then ret tt
  else
    b ← res_getitem GR_STONES_B;
    bs ← lift (iter_stones b);
    res_update (set_STONES_B (Some (resize_stones bs scale).2));;
    lift (resize_stones bs scale).1;;
    w ← res_getitem GR_STONES_W;
    ws ← lift (iter_stones w);
    res_update (set_STONES_W (Some (resize_stones ws scale).2));;
    lift (resize_stones ws scale).1;;
    sp ← res_getitem GR_SPACING;
    res_update (set_SPACING (float_mul sp.1 scale.1, float_mul sp.2 scale.2));;
    e ← res_getitem GR_EDGES;
    res_update (set_EDGES ((float_mul e.1.1 scale.1, float_mul e.1.2 scale.2),
                           (float_mul e.2.1 scale.1, float_mul e.2.2 scale.2))).

Definition black_stones (s : board) : option (list stone) :=
  match _res s with
  | None => None
  | Some r => GR_STONES_B r
  end.

Definition white_stones (s : board) : option (list stone) :=
  match _res s with
  | None => None
  | Some r => GR_STONES_W r
  end.

(** The [stones] property: a dictionary with the keys ['W'] and ['B']. *)
Definition stones (s : board) : option (gmap string (option (list stone))) :=
  match _res s with
  | None => None
  | Some r => Some (<["W" := GR_STONES_W r]> (<["B" := GR_STONES_B r]> ∅))
  end.

(** [d[key]] on the [stones] dictionary. *)
Definition stones_getitem (d : option (gmap string (option (list stone))))
    (key : string) : outcome (option (list stone)) :=
  match d with
  | None => Raise TypeError
  | Some d =>
      match d !! key with
      | Some v => Ok v
      | None => Raise (KeyError key)
      end
  end.

Definition all_stones (s : board) : list (list item) :=
  let r := [] in
  let r := match black_stones s with
           | Some bs => r ++ ((λ st, stone_list st ++ [IStr "B"]) <$> bs)
           | None => r
           end in
  let r := match white_stones s with
           | Some ws => r ++ ((λ st, stone_list st ++ [IStr "W"]) <$> ws)
           | None => r
           end in
  r.

Definition board_size (s : board) : pvalue :=
  match _res s with
  | None =>
      match params_get "BOARD_SIZE" s with
      | PNone => PNum DEF_BOARD_SIZE
      | p => p
      end
  | Some r => PNum (GR_BOARD_SIZE r)
  end.

(** The inner [_find] of [find_stone]. *)
Definition _find (c p : option (Z * Z)) (s : option string)
    (sts : option (list stone)) : outcome (option stone) :=
  match c, p, s with
  | Some c, _, _ => Ok (find_coord c.1 c.2 sts)
  | None, Some p, _ => Ok (find_position p.1 p.2 sts)
  | None, None, Some s =>
      let! ch := first_char (upper s) in
      let! row := py_int (tail_from_1 s) in
      Ok (find_position (ord ch - ord "A" + 1) row sts)
  | None, None, None => Ok None
  end.

Definition find_stone (brd : board) (c p : option (Z * Z))
    (s : option string) (bw : option string)
  : outcome (option stone * option string) :=
  match _res brd with
  | None => Ok (None, None)
  | Some _ =>
      match bw with
      | Some key =>
          let! sts := stones_getitem (stones brd) key in
          let! stone := _find c p s sts in
          Ok (stone, bw)
      | None =>
          let! stone := _find c p s (black_stones brd) in
          match stone with
          | Some _ => Ok (stone, Some "B")
          | None =>
              let! stone := _find c p s (white_stones brd) in
              Ok (stone, match stone with
                         | Some _ => Some "W"
                         | None => None
                         end)
          end
      end
  end.

(** The inner [_add_stone] of [save_sgf]: the move is added to the
    game unless the library refuses it. *)
Definition _add_stone (game : Sgf_game) (bw : string) (st : stone)
  : outcome Sgf_game :=
  let! _ := set_move_check (sgf_size game) bw (GR_B st, GR_A st) in
  Ok (mkSgf_game (sgf_size game) (sgf_moves game ++ [(bw, (GR_B st, GR_A st))])).

(** One round of the loop of [save_sgf]: [bs !! n] is [Some] exactly
    when [n < len(stones['B'])], and likewise for the white stones. *)
Definition save_sgf_round (bs ws : list stone) (game : outcome Sgf_game)
    (n : nat) : outcome Sgf_game :=
  let! game := game in
  let! game :=
    match bs !! n with
    | Some st => _add_stone game "b" (stone_sub st 1)
    | None => Ok game
    end in
  match ws !! n with
  | Some st => _add_stone game "w" (stone_sub st 1)
  | None => Ok game
  end.

(** [save_sgf(filename)]: the file name and the game that is
    serialised into it, unless the library refuses the size or a move
    or the file cannot be written. *)
Definition save_sgf (brd : board) (filename : option string)
  : outcome (string * Sgf_game) :=
  match _res brd with
  | None => Raise (Exception "Recognition results are not available")
  | Some _ =>
      let! filename :=
        match filename with
        | Some f => Ok f
        | None =>
            match _img_file brd with
            | Some f => Ok (with_suffix f ".sgf")
            | None => Raise TypeError
            end
        end in
      let! _ := Sgf_game_check (board_size brd) in
      let game := mkSgf_game (board_size brd) [] in
      let stones := stones brd in
      let! w := stones_getitem stones "W" in
      let! ws := iter_stones w in
      let! b := stones_getitem stones "B" in
      let! bs := iter_stones b in
      let! game :=
        foldl (save_sgf_round bs ws) (Ok game)
              (seq 0 (Nat.max (length ws) (length bs))) in
      let! _ := write_bytes filename in
      Ok (filename, game)
  end.

End GrBoardQueries.

(** * Further methods *)

(** ** The image mask, continued *)

Definition set_last_cursor (v : option string) (m : ImageMask) : ImageMask :=
  mkImageMask (image_shape m) (min_dist m) (allow_change m) (mask m)
    (mask_area m) (mask_rect m) v (drag_side m).

(** [hide()]: both overlay items are deleted from the canvas. *)
Definition hide (m : ImageMask) : ImageMask :=
  set_mask_rect None (set_mask_area None m).

Definition CURSORS : list string :=
  ["left_side"; "top_side"; "right_side"; "bottom_side"].

(** The mask together with the cursor its canvas shows
    ([canvas.config(cursor=...)]); [""] is the default cursor. *)
Record MaskView : Type := mkMaskView {
  view_mask : ImageMask;
  canvas_cursor : string
}.

(** [random.randint(lo, hi)] returns some [n] with [lo <= n <= hi]. *)
Definition randint (lo hi n : Z) : Prop := lo ≤ n ≤ hi.

(** [random_mask()]: [m'] is [m] after one call, for some outcome of the
    four draws.  [int(w / 2)] is the float quotient cut to an integer. *)
Inductive random_mask (m : ImageMask) : ImageMask → Prop :=
| random_mask_drawn (l t r b : Z) :
    let cw := int_of_float (inject_Z (image_shape m).2 / 2) in
    let ch := int_of_float (inject_Z (image_shape m).1 / 2) in
    randint 0 cw l →
    randint 0 ch t →
    randint (cw + 1) (image_shape m).2 r →
    randint (ch + 1) (image_shape m).1 b →
    random_mask m (set_mask [l; t; r; b] m).

Section ImageMaskEvents.
Context `{Canvas}.

(** [motion_callback(event)].  [get_mask_rect_side] only returns the
    indices 0 to 3, so [CURSORS[side]] is a lookup from the front. *)
Definition motion_callback (v : MaskView) (ex ey : Z) : outcome MaskView :=
  let m := view_mask v in
  let! c :=
    match mask_rect m with
    | None => Ok None
    | Some _ =>
        match get_mask_rect_side m ex ey with
        | None => Ok None
        | Some side =>
            let! name := getitem CURSORS (Z.to_nat side) in
            Ok (Some name)
        end
    end in
  match c with
  | None =>
      match last_cursor m with
      | Some _ => Ok (mkMaskView (set_last_cursor None m) "")
      | None => Ok v
      end
  | Some c =>
      if bool_decide (last_cursor m ≠ Some c)
      then Ok (mkMaskView (set_last_cursor (Some c) m) c)
      else Ok v
  end.

End ImageMaskEvents.

(** ** The status panel *)

(** The font of the panel's label: [f.measure(text)] is the width of a
    text in pixels. *)
Class Font : Type := {
  measure : string → Z
}.

(** The first [n] characters of a string. *)
Fixpoint str_take (n : nat) (s : string) : string :=
  match n, s with
  | S n, String c r => String c (str_take n r)
  | _, _ => EmptyString
  end.

(** [s[:e]] on a Python string: a negative [e] counts from the end. *)
Definition slice_to (e : Z) (s : string) : string :=
  if e <? 0 then str_take (Z.to_nat (Z.of_nat (String.length s) + e)) s
  else str_take (Z.to_nat e) s.

(** The panel: its maximal width and the text its label shows. *)
Record StatusPanel : Type := mkStatusPanel {
  _max_width : Z;
  _var : string
}.

(** The one way the arithmetic of [set] can fail. *)
Inductive arith_exn : Type :=
| ZeroDivisionError.

Section StatusPanelModel.
Context `{Font}.

(** [set(text)] on a panel whose window is [winfo_width] pixels wide. *)
Definition set (winfo_width : Z) (text : string) (p : StatusPanel)
  : arith_exn + StatusPanel :=
  let chw := measure "W" in
  let maxw := winfo_width in
  let curw := measure text in
  let maxw := maxw - chw * 3 in
  if maxw <? curw then
    if chw =? 0 then inl ZeroDivisionError
    else
      let strip_len :=
        int_of_float (inject_Z (curw - maxw) / inject_Z chw) + 3 in
      inr (mkStatusPanel (_max_width p)
             (slice_to (- strip_len) text +:+ "..."))
  else inr (mkStatusPanel (_max_width p) text).

(** The [status] property. *)
Definition status (p : StatusPanel) : string := _var p.

End StatusPanelModel.

(** ** The board, continued *)

(** What the remaining methods of [GrBoard] call outside [board.py]:
    the edge detector of [gr.gr], which is handed the parameters object
    and may write to it, the image writer and resizer, and the JSON text
    of the parameters ([json.dump] of [GrParams.todict]).  None of them
    is among the sources; they are taken as given. *)
Class Workshop (image : Type) : Type := {
  detect_board : image → gmap string pvalue →
                 (pvalue * pvalue) * gmap string pvalue;
  imwrite : string → image → outcome unit;
  resize : image → Z → outcome image;
  dump_params : gmap string pvalue → string
}.

(** An argument of [int(...)]: a number or a string. *)
Inductive size_arg : Type :=
| SizeInt (z : Z)
| SizeFloat (q : Q)
| SizeStr (s : string).

Definition int_of_arg (a : size_arg) : outcome Z :=
  match a with
  | SizeInt z => Ok z
  | SizeFloat q => Ok (int_of_float q)
  | SizeStr s => py_int s
  end.

(** [np.array(mask).reshape((2,2)).tolist()] for the flat list the
    image mask hands over: two rows of two when it has four entries,
    otherwise the reshape fails. *)
Definition reshape_2x2 (flat : list Z) : outcome pvalue :=
  match flat with
  | [a; b; c; d] => Ok (PList [PList [PNum a; PNum b]; PList [PNum c; PNum d]])
  | _ => Raise ValueError
  end.

(** [list(p) if p is not None else None] *)
Definition list_or_none (p : pvalue) : outcome pvalue :=
  match p with
  | PNone => Ok PNone
  | PList l => Ok (PList l)
  | _ => Raise TypeError
  end.

(** A number for [min] and [range]: booleans count as 0 and 1. *)
Definition num_of (p : pvalue) : outcome Z :=
  match p with
  | PNum z => Ok z
  | PBool b => Ok (if b then 1 else 0)
  | _ => Raise TypeError
  end.

(** Modelled from the spec: the positions [GR_A] and [GR_B] of the
    column and the row in a row [x, y, a, b, r, bw] of [all_stones];
    [gr/grdef.py] is not among the sources. *)
Definition GR_A_index : nat := 2.
Definition GR_B_index : nat := 3.

(** [s[i] == z] and [lo <= s[i] < hi] for an entry of such a row. *)
Definition item_is (it : item) (z : Z) : bool :=
  match it with
  | INum a => a =? z
  | IStr _ => false
  end.

Definition item_in_range (it : item) (lo hi : Z) : bool :=
  match it with
  | INum a => (lo <=? a) && (a <? hi)
  | IStr _ => false
  end.

Section GrBoardMore.
Context {image : Type} `{!Collaborators image} `{!Workshop image}.

Abbreviation board := (GrBoard image).

Definition detect_edges : M (image:=image) (pvalue * pvalue) := λ s,
  match _img s, _gen_board s with
  | Some img, false =>
      let '((edges, size), params) := detect_board img (_params s) in
      (params_setitem "BOARD_EDGES" edges;;
       params_setitem "BOARD_SIZE" size;;
       ret (edges, size)) (set_params params s)
  | _, _ => (Ok (PNone, PNone), s)
  end.

(** The [board_edges] property: the parameter while there is no result,
    the result's rectangle afterwards. *)
Definition board_edges (s : board)
  : pvalue + (float * float) * (float * float) :=
  match _res s with
  | None => inl (params_get "BOARD_EDGES" s)
  | Some r => inr (GR_EDGES r)
  end.

(** The [param_area_mask], [param_board_edges], [param_board_size] and
    [param_transform_rect] properties and their setters. *)
Definition param_area_mask (s : board) : outcome pvalue :=
  list_or_none (params_get "AREA_MASK" s).

Definition param_area_mask_setter (msk : option (list Z)) : M (image:=image) unit :=
  match msk with
  | None => params_setitem "AREA_MASK" PNone
  | Some flat =>
      m ← lift (reshape_2x2 flat);
      params_setitem "AREA_MASK" m
  end.

Definition param_board_edges (s : board) : outcome pvalue :=
  list_or_none (params_get "BOARD_EDGES" s).

Definition param_board_edges_setter (edges : option (list Z))
  : M (image:=image) unit :=
  match edges with
  | None => params_setitem "BOARD_EDGES" PNone
  | Some flat =>
      m ← lift (reshape_2x2 flat);
      params_setitem "BOARD_EDGES" m
  end.


Definition param_board_size_setter (size : option size_arg)
  : M (image:=image) unit :=
  match size with
  | None => params_setitem "BOARD_SIZE" PNone
  | Some a =>
      n ← lift (int_of_arg a);
      params_setitem "BOARD_SIZE" (PNum n)
  end.

Definition param_transform_rect (s : board) : outcome pvalue :=
  list_or_none (params_get "TRANSFORM" s).

Definition param_transform_rect_setter (rect : pvalue) : M (image:=image) unit :=
  params_setitem "TRANSFORM" rect.

(** The [image] setter, for an image [im]; the source image is only
    filled in when there is none. *)
Definition image_setter (im : image) : M (image:=image) unit :=
  modify (set_img (Some im));;
  modify (set_gen_board false);;
  src ← gets _src_img;
  if is_none src then modify (set_src_img (Some im)) else ret tt.

(** [str(filename)] *)
Definition str_of (name : option string) : string := default "None" name.

Definition save_image (filename : option string) (max_size : option Z)
  : M (image:=image) unit :=
  img ← gets _img;
  match img with
  | None => raise (Exception "Image was not loaded")
  | Some im =>
      img_file ← gets _img_file;
      let filename := match filename with
                      | None => img_file
                      | Some f => Some f
                      end in
      im ← lift (match max_size with
                 | None => Ok im
                 | Some n => resize im n
                 end);
      lift (imwrite (str_of filename) im);;
      modify (set_img_file filename);;
      modify (set_gen_board false)
  end.

(** One round of the loop of [find_nearby]: the row is appended when it
    is not at the position of [p] and its column and row are in range. *)
Definition find_nearby_round (p : stone) (lo_a hi_a lo_b hi_b : Z)
    (acc : outcome (list (list item))) (row : list item)
  : outcome (list (list item)) :=
  let! r := acc in
  let! a := getitem row GR_A_index in
  let! same :=
    (if item_is a (GR_A p)
     then let! b := getitem row GR_B_index in Ok (item_is b (GR_B p))
     else Ok false) in
  if negb same then
    if item_in_range a lo_a hi_a then
      let! b := getitem row GR_B_index in
      if item_in_range b lo_b hi_b then Ok (r ++ [row]) else Ok r
    else Ok r
  else Ok r.

(** [find_nearby(p, d)], [p] a stone row or [None]. *)
Definition find_nearby (s : board) (p : option stone) (d : Z)
  : outcome (option (list (list item))) :=
  match p with
  | None => Ok None
  | Some p =>
      let! size := num_of (board_size s) in
      let lo_a := Z.max (GR_A p - d) 1 in
      let hi_a := Z.min (GR_A p + d) size + 1 in
      let lo_b := Z.max (GR_B p - d) 1 in
      let hi_b := Z.min (GR_B p + d) size + 1 in
      let! r := foldl (find_nearby_round p lo_a hi_a lo_b hi_b) (Ok [])
                  (all_stones s) in
      Ok (Some r)
  end.

(** [GrBoard(image_file, board_shape)] for an object whose [GrParams()]
    holds [params]: the board, unless loading raises. *)
Definition construct (params : gmap string pvalue)
    (image_file : option string) (board_shape : option (list Z))
  : outcome board :=
  let blank := mkGrBoard params None None None None None false in
  let run :=
    match image_file with
    | Some (String c f) => load_image (String c f) true true blank
    | _ => (generate (default DEF_IMG_SIZE board_shape);; ret false) blank
    end in
  match run with
  | (Ok _, s) => Ok s
  | (Raise e, _) => Raise e
  end.

End GrBoardMore.

(** The file system as [save_params] uses it.  [Path.exists],
    [Path.with_suffix], [Path.replace] and the writing of a file can
    each raise; replacing and writing also give the file system they
    leave behind.  [read_text] is the text that a regular file holds. *)
Class Disk (fs : Type) : Type := {
  path_exists : fs → string → outcome bool;
  path_with_suffix : string → string → outcome string;
  path_replace : fs → string → string → outcome unit * fs;
  write_text : fs → string → string → outcome unit * fs;
  read_text : fs → string → option string
}.

Section SaveParams.
Context {image : Type} `{!Workshop image} {fs : Type} `{!Disk fs}.

(** [save_params(filename, f_bak)] on the file system [d]: what it
    returns or raises, and the file system afterwards. *)
Definition save_params (s : GrBoard image) (d : fs) (filename : option string)
    (f_bak : bool) : outcome string * fs :=
  match (match filename with
         | Some f => Ok f
         | None =>
             match _img_file s with
             | Some f => path_with_suffix f BOARD_PARAM_EXT
             | None => Raise TypeError
             end
         end) with
  | Raise e => (Raise e, d)
  | Ok filename =>
      let backed :=
        match path_exists d filename with
        | Raise e => (Raise e, d)
        | Ok false => (Ok tt, d)
        | Ok true =>
            if f_bak then
              match path_with_suffix filename (BOARD_PARAM_EXT +:+ ".bak") with
              | Raise e => (Raise e, d)
              | Ok bak => path_replace d filename bak
              end
            else (Ok tt, d)
        end in
      match backed with
      | (Raise e, d) => (Raise e, d)
      | (Ok _, d) =>
          match write_text d filename (dump_params (_params s)) with
          | (Raise e, d) => (Raise e, d)
          | (Ok _, d) => (Ok filename, d)
          end
      end
  end.

End SaveParams.

(** * Notions used in the statements *)

(** A canvas without scrolling that reports rectangle coordinates as
    they were set. *)
Definition plain_canvas : Canvas :=
  {| canvasx := λ x, x; canvasy := λ y, y; rect_coords := λ r, r |}.

(** The mask [ImageMask(canvas, (100, 100))] as first shown, and after a
    first drag movement with the pointer on its left and on its right
    edge. *)
Definition unshown_mask : ImageMask :=
  mkImageMask (100, 100) 5 true [] None None None None.

Definition shown_mask : ImageMask :=
  Eval vm_compute in
    match init (100, 100) None true true 5 with
    | Ok m => m
    | Raise _ => unshown_mask
    end.

Definition left_latched_mask : ImageMask :=
  Eval vm_compute in
    match drag_callback (H:=plain_canvas) shown_mask 5 50 with
    | Ok m => m
    | Raise _ => unshown_mask
    end.

Definition right_latched_mask : ImageMask :=
  Eval vm_compute in
    match drag_callback (H:=plain_canvas) shown_mask 95 50 with
    | Ok m => m
    | Raise _ => unshown_mask
    end.

Section StatementNotions.
Context {image : Type} `{!Collaborators image}.

Abbreviation board := (GrBoard image).

(** What [process] is to leave of a detector output: the stone lists
    present, everything else as reported. *)
Definition normalized (r : result image) : result image :=
  mkResult (Some (default [] (GR_STONES_B r))) (Some (default [] (GR_STONES_W r)))
    (GR_EDGES r) (GR_SPACING r) (GR_NUM_CROSS_H r) (GR_NUM_CROSS_W r)
    (GR_BOARD_SIZE r) (GR_IMAGE_SIZE r) (GR_DEBUG r).

(** A method [m] leaves the part [f] of the board as it was, whatever it
    returns or raises. *)
Definition keeps {A B} (f : board → B) (m : M A) : Prop :=
  ∀ s, f (m s).2 = f s.

(** An image edited by any number of [transform_image] and
    [resize_board] calls, whatever each returned or raised. *)
Inductive edited : board → board → Prop :=
| edited_refl (s : board) : edited s s
| edited_transform (s s' s'' : board) (rect : pvalue) (o : outcome unit) :
    transform_image rect s = (o, s') → edited s' s'' → edited s s''
| edited_resize (s s' s'' : board) (max_size : option Z)
    (scale : option (float * float)) (o : outcome unit) :
    resize_board max_size scale s = (o, s') → edited s' s'' → edited s s''.

(** The result after a resize by [scale] that has left the stone lists
    [bs'] and [ws']. *)
Definition resized (scale : float * float) (bs' ws' : list stone)
    (r : result image) : result image :=
  mkResult (Some bs') (Some ws')
    ((float_mul (GR_EDGES r).1.1 scale.1, float_mul (GR_EDGES r).1.2 scale.2),
     (float_mul (GR_EDGES r).2.1 scale.1, float_mul (GR_EDGES r).2.2 scale.2))
    (float_mul (GR_SPACING r).1 scale.1, float_mul (GR_SPACING r).2 scale.2)
    (GR_NUM_CROSS_H r) (GR_NUM_CROSS_W r) (GR_BOARD_SIZE r) (GR_IMAGE_SIZE r)
    (GR_DEBUG r).

(** What one resize by [(sx, sy)] makes of a stone: each pixel entry is
    the integer part of its float product with the factor, the radius
    that of its product with the larger factor; column and row stay. *)
Definition scaled_by (sx sy : float) (st st' : stone) : Prop :=
  scale_entry (GR_X st) sx = Ok (GR_X st')
  ∧ scale_entry (GR_Y st) sy = Ok (GR_Y st')
  ∧ scale_entry (GR_R st) (py_max sx sy) = Ok (GR_R st')
  ∧ GR_A st' = GR_A st
  ∧ GR_B st' = GR_B st.

(** Every entry of the stone scales: no product is an infinity or a NaN
    and each integer part fits the row. *)
Definition scalable (sx sy : float) (st : stone) : Prop :=
  ∃ st', scaled_by sx sy st st'.

(** The library accepts the moves one after the other; otherwise the
    error of the first one it refuses. *)
Fixpoint accepted (size : pvalue) (moves : list (string * (Z * Z)))
  : outcome unit :=
  match moves with
  | [] => Ok tt
  | m :: rest => let! _ := set_move_check size m.1 m.2 in accepted size rest
  end.

End StatementNotions.

(** Two stones on the same grid position. *)
Definition same_grid (st st' : stone) : Prop :=
  GR_A st' = GR_A st ∧ GR_B st' = GR_B st.

(** Two sequences taken in turn, one element of each, the rest of the
    longer one after the shorter has run out. *)
Fixpoint alternate {A} (l1 l2 : list A) : list A :=
  match l1, l2 with
  | [], _ => l2
  | _, [] => l1
  | x :: l1', y :: l2' => x :: y :: alternate l1' l2'
  end.

(** A move of the record: the colour and the stone's row and column,
    counted from zero. *)
Definition zero_based (colour : string) (st : stone) : string * (Z * Z) :=
  (colour, (GR_B st - 1, GR_A st - 1)).

(** ** A concrete world *)

(** [Path(f).with_suffix(ext)] for a file name without directories. *)
Fixpoint drop_to_dot (s : string) : option string :=
  match s with
  | EmptyString => None
  | String c r => if Ascii.eqb c "." then Some r else drop_to_dot r
  end.

Definition replace_suffix (f ext : string) : string :=
  match drop_to_dot (String.rev f) with
  | Some r => String.rev r +:+ ext
  | None => f +:+ ext
  end.

(** [a / b] on floats, for the factor of the sample resize. *)
Definition float_div (a b : float) : float := SpecFloat.SFdiv 53 1024 a b.

(** The edges and the spacing of the sample results. *)
Definition sample_edges : (float * float) * (float * float) :=
  ((float_of_int 20, float_of_int 20), (float_of_int 380, float_of_int 280)).

Definition sample_spacing : float * float := (float_of_int 20, float_of_int 20).

(** What the sample detector reports: two black stones and no white
    list. *)
Definition sample_result : result (Z * Z) :=
  mkResult (Some [mkStone 203 101 4 4 10; mkStone 41 40 1 1 10]) None
    sample_edges sample_spacing 19 19 19 (384, 512) ∅.

(** A stand-in for the collaborators, to run the methods on concrete
    inputs: an image is its (height, width); one file can be read; a
    resize to [max_size] scales the longer side to it and reports the
    quotient of the two lengths; stone rows hold 64-bit integers; the SGF
    library takes sizes from 1 to 26 and the points of the board; a file
    without name cannot be written. *)
Definition sample_world : Collaborators (Z * Z) :=
  {| imread := λ f, if String.eqb f "board.png" then Some (384, 512) else None;
     four_point_transform := λ img rect, Ok (img.1 - 10, img.2 - 10);
     resize2 := λ img max_size,
       match max_size with
       | Some n =>
           let m := Z.max img.1 img.2 in
           if (0 <? n) && (0 <? m)
           then let sc := float_div (float_of_int n) (float_of_int m) in
                Ok ((img.1 * n / m, img.2 * n / m), (sc, sc))
           else Raise ValueError
       | None => Raise TypeError
       end;
     fits_stone := λ v, (- 2 ^ 63 <=? v) && (v <? 2 ^ 63);
     process_img := λ img params, (Some sample_result, params);
     generate_board := λ shape res,
       (default 0 (shape !! 0%nat), default 0 (shape !! 1%nat));
     find_coord := find_coord_radius;
     find_position := find_position_grid;
     assign := λ cur p copy_all, p ∪ cur;
     DEF_BOARD_SIZE := 19;
     DEF_IMG_SIZE := [500; 500];
     with_suffix := replace_suffix;
     is_file := λ f, false;
     json_load := λ f, Raise (Exception "no such file");
     Sgf_game_check := λ size,
       match size with
       | PNum z => if (1 <=? z) && (z <=? 26) then Ok tt else Raise ValueError
       | _ => Raise TypeError
       end;
     set_move_check := λ size colour move,
       match size with
       | PNum z =>
           if (0 <=? move.1) && (move.1 <? z) && (0 <=? move.2) && (move.2 <? z)
           then Ok tt else Raise ValueError
       | _ => Raise TypeError
       end;
     write_bytes := λ f,
       match f with
       | EmptyString => Raise (OSError "No such file or directory")
       | _ => Ok tt
       end |}.

(** The board as [__init__] sets it up before loading or generating. *)
Definition new_board : GrBoard (Z * Z) :=
  mkGrBoard ∅ None None None None None false.

(** The board after [load_image('board.png')] in the sample world. *)
Definition sample_board : GrBoard (Z * Z) :=
  mkGrBoard ∅
    (Some (mkResult (Some [mkStone 203 101 4 4 10; mkStone 41 40 1 1 10]) (Some [])
             sample_edges sample_spacing 19 19 19 (384, 512) ∅))
    (Some (384, 512)) (Some "board.png") (Some (384, 512)) (Some "board.png")
    false.

(** A board whose result holds three black stones and one white stone. *)
Definition played_board : GrBoard (Z * Z) :=
  set_res
    (Some (mkResult
             (Some [mkStone 203 101 4 4 10; mkStone 41 40 1 1 10;
                    mkStone 60 40 2 1 10])
             (Some [mkStone 100 101 3 4 10])
             sample_edges sample_spacing 19 19 19 (384, 512) ∅))
    sample_board.

(** ** Further notions *)

(** The pointer is within the one-pixel window of the vertical edge at
    [xe] that spans [ya] to [yb]. *)
Definition near_vertical (xe ya yb px py : Z) : bool :=
  (xe - 1 <=? px) && (px <=? xe + 1)
  && (Z.min ya yb - 1 <=? py) && (py <=? Z.max ya yb + 1).

(** The pointer is within the one-pixel window of the horizontal edge at
    [ye] that spans [xa] to [xb]. *)
Definition near_horizontal (ye xa xb px py : Z) : bool :=
  (ye - 1 <=? py) && (py <=? ye + 1)
  && (Z.min xa xb - 1 <=? px) && (px <=? Z.max xa xb + 1).

(** The x and the y coordinates of a polygon given as
    [x0, y0, x1, y1, ...]. *)
Fixpoint xs_of (poly : list Z) : list Z :=
  match poly with
  | x :: _ :: rest => x :: xs_of rest
  | _ => []
  end.

Fixpoint ys_of (poly : list Z) : list Z :=
  match poly with
  | _ :: y :: rest => y :: ys_of rest
  | _ => []
  end.

(** The point lies in the bounding box of the polygon's corners, which
    for the axis-parallel rectangles of the shading is the polygon. *)
Definition covers (poly : list Z) (x y : Z) : Prop :=
  Exists (λ a, a ≤ x) (xs_of poly) ∧ Exists (λ a, x ≤ a) (xs_of poly)
  ∧ Exists (λ a, a ≤ y) (ys_of poly) ∧ Exists (λ a, y ≤ a) (ys_of poly).

(** A mask after any number of drag movements and releases. *)
Inductive dragged `{Canvas} : ImageMask → ImageMask → Prop :=
| dragged_refl (m : ImageMask) : dragged m m
| dragged_move (m m' m'' : ImageMask) (ex ey : Z) :
    drag_callback m ex ey = Ok m' → dragged m' m'' → dragged m m''
| dragged_release (m m'' : ImageMask) :
    dragged (end_drag_callback m) m'' → dragged m m''.

(** No edge is latched, or one of the four. *)
Definition side_in_range (m : ImageMask) : Prop :=
  match drag_side m with
  | None => True
  | Some k => 0 ≤ k ≤ 3
  end.

(** The sample mask with its left edge dragged across the right one, and
    the sample mask hidden. *)
Definition crossed_mask : ImageMask :=
  Eval vm_compute in
    match drag_callback (H:=plain_canvas) left_latched_mask 200 50 with
    | Ok m => m
    | Raise _ => unshown_mask
    end.

Definition hidden_mask : ImageMask := Eval vm_compute in hide shown_mask.

(** The cursor named for a side. *)
Definition cursor_of (side : option Z) : option string :=
  match side with
  | Some 0 => Some "left_side"
  | Some 1 => Some "top_side"
  | Some 2 => Some "right_side"
  | Some 3 => Some "bottom_side"
  | _ => None
  end.

(** A font in which every character is eight pixels wide. *)
Definition fixed_font : Font :=
  {| measure := λ s, 8 * Z.of_nat (String.length s) |}.

(** The moves [save_sgf] makes of the stones of a board. *)
Definition moves_of {image : Type} (s : GrBoard image)
  : list (string * (Z * Z)) :=
  alternate
    (zero_based "b" <$> default [] (black_stones s))
    (zero_based "w" <$> default [] (white_stones s)).

(** Replacing and writing, when they succeed, act on regular files as
    on a table of texts: the text moves to the new name, the written text
    is under the name written, and no other file changes. *)
Definition replace_moves_text {fs : Type} `{!Disk fs} : Prop :=
  ∀ d src dst d', path_replace d src dst = (Ok tt, d') → src ≠ dst →
    read_text d' dst = read_text d src
    ∧ read_text d' src = None
    ∧ ∀ k, k ≠ src → k ≠ dst → read_text d' k = read_text d k.

Definition write_stores_text {fs : Type} `{!Disk fs} : Prop :=
  ∀ d f text d', write_text d f text = (Ok tt, d') →
    read_text d' f = Some text
    ∧ ∀ k, k ≠ f → read_text d' k = read_text d k.

(** A file system of regular files in one directory, in which a path
    without name neither takes a suffix nor can be written. *)
Definition flat_disk : Disk (gmap string string) :=
  {| path_exists := λ d f, Ok (bool_decide (is_Some (d !! f)));
     path_with_suffix := λ f ext,
       match f with
       | EmptyString => Raise ValueError
       | _ => Ok (replace_suffix f ext)
       end;
     path_replace := λ d src dst,
       match d !! src with
       | Some text => (Ok tt, <[dst := text]> (delete src d))
       | None => (Raise (OSError "No such file or directory"), d)
       end;
     write_text := λ d f text,
       match f with
       | EmptyString => (Raise (OSError "No such file or directory"), d)
       | _ => (Ok tt, <[f := text]> d)
       end;
     read_text := λ d f, d !! f |}.

Section FurtherBoardNotions.
Context {image : Type} `{!Collaborators image} `{!Workshop image}.

Abbreviation board := (GrBoard image).

(** A result, when there is one, has both stone lists. *)
Definition lists_present (s : board) : Prop :=
  ∀ r, _res s = Some r → is_Some (GR_STONES_B r) ∧ is_Some (GR_STONES_W r).

(** A method [m] keeps the property [P] of the board, whatever it
    returns or raises. *)
Definition preserves {A} (P : board → Prop) (m : M A) : Prop :=
  ∀ s, P s → P (m s).2.

(** One call of a method other than [load_image], with any arguments and
    whatever it returned or raised. *)
Inductive edit_step : board → board → Prop :=
| step_process s o s' : process s = (o, s') → edit_step s s'
| step_transform_image s rect o s' :
    transform_image rect s = (o, s') → edit_step s s'
| step_resize_board s max_size scale o s' :
    resize_board max_size scale s = (o, s') → edit_step s s'
| step_reset_image s o s' : reset_image s = (o, s') → edit_step s s'
| step_generate s shape o s' : generate shape s = (o, s') → edit_step s s'
| step_params_setter s p o s' : params_setter p s = (o, s') → edit_step s s'
| step_detect_edges s o s' : detect_edges s = (o, s') → edit_step s s'
| step_image_setter s im o s' : image_setter im s = (o, s') → edit_step s s'
| step_save_image s filename max_size o s' :
    save_image filename max_size s = (o, s') → edit_step s s'
| step_param_area_mask s msk o s' :
    param_area_mask_setter msk s = (o, s') → edit_step s s'
| step_param_board_edges s edges o s' :
    param_board_edges_setter edges s = (o, s') → edit_step s s'
| step_param_board_size s size o s' :
    param_board_size_setter size s = (o, s') → edit_step s s'
| step_param_transform_rect s rect o s' :
    param_transform_rect_setter rect s = (o, s') → edit_step s s'.

(** Any number of such calls. *)
Inductive edits : board → board → Prop :=
| edits_refl s : edits s s
| edits_step s s' s'' : edit_step s s' → edits s' s'' → edits s s''.

(** The boards that method calls can produce from a new object. *)
Inductive reachable : board → Prop :=
| reachable_new params :
    reachable (mkGrBoard params None None None None None false)
| reachable_edit s s' : reachable s → edit_step s s' → reachable s'
| reachable_load s filename f_with_params f_process o s' :
    reachable s →
    load_image filename f_with_params f_process s = (o, s') →
    reachable s'.

End FurtherBoardNotions.

(** The rows of [all_stones] for the stones of one colour. *)
Definition coloured (c : string) (sts : list stone) : list (list item) :=
  (λ st, stone_list st ++ [IStr c]) <$> sts.

(** A stone is near [p] within [d] on a board of [size] lines: another
    grid position, at most [d] columns and rows away, on the board. *)
Definition near (p : stone) (d size : Z) (st : stone) : Prop :=
  (GR_A st ≠ GR_A p ∨ GR_B st ≠ GR_B p)
  ∧ Z.abs (GR_A st - GR_A p) ≤ d ∧ Z.abs (GR_B st - GR_B p) ≤ d
  ∧ 1 ≤ GR_A st ≤ size ∧ 1 ≤ GR_B st ≤ size.

#[global] Instance near_dec p d size st : Decision (near p d size st).
Proof. unfold near. apply _. Defined.

(** A stand-in for the further collaborators on the sample images: the
    edge detector reports a fixed rectangle and size 19, writing fails
    for the name ["None"], resizing scales the longer side. *)
Definition sample_workshop : Workshop (Z * Z) :=
  {| detect_board := λ img params,
       ((PList [PList [PNum 20; PNum 20]; PList [PNum 380; PNum 280]],
         PNum 19), params);
     imwrite := λ name img,
       if String.eqb name "None" then Raise (Exception "could not write")
       else Ok tt;
     resize := λ img n,
       let m := Z.max img.1 img.2 in
       if (0 <? n) && (0 <? m) then Ok (img.1 * n / m, img.2 * n / m)
       else Raise ValueError;
     dump_params := λ params,
       if bool_decide (params = ∅) then "{}" else "{...}" |}.

(** The sample world with a parameter file beside the photograph whose
    reading gives [stored]. *)
Definition stored_params_world (stored : outcome (gmap string pvalue))
  : Collaborators (Z * Z) :=
  {| imread := imread (Collaborators:=sample_world);
     four_point_transform := four_point_transform (Collaborators:=sample_world);
     resize2 := resize2 (Collaborators:=sample_world);
     fits_stone := fits_stone (Collaborators:=sample_world);
     process_img := process_img (Collaborators:=sample_world);
     generate_board := generate_board (Collaborators:=sample_world);
     find_coord := find_coord_radius;
     find_position := find_position_grid;
     assign := assign (Collaborators:=sample_world);
     DEF_BOARD_SIZE := 19;
     DEF_IMG_SIZE := [500; 500];
     with_suffix := replace_suffix;
     is_file := λ f, String.eqb f "board.gpar";
     json_load := λ f, stored;
     Sgf_game_check := Sgf_game_check (Collaborators:=sample_world);
     set_move_check := set_move_check (Collaborators:=sample_world);
     write_bytes := write_bytes (Collaborators:=sample_world) |}.

(** The sample board with a generated image in place of the photograph. *)
Definition regenerated_board : GrBoard (Z * Z) :=
  Eval vm_compute in
    (generate (Collaborators0:=sample_world) [500; 500] sample_board).2.

(** * Properties *)

(** ** Hit testing *)

Lemma elem_of_range (n i : Z) : In i (range n) ↔ 0 ≤ i < n.
Proof.
  unfold range. rewrite <- list_elem_of_In, list_elem_of_fmap. split.
  - intros (k & -> & Hk). apply list_elem_of_In, in_seq in Hk. lia.
  - intros Hi. exists (Z.to_nat i). split; [lia|].
    apply list_elem_of_In, in_seq. lia.
Qed.

Lemma within_range (p q r : Z) :
  within p q r = true ↔ Z.min p r ≤ q ≤ Z.max p r.
Proof.
  unfold within.
  rewrite orb_true_iff, !andb_true_iff, !Z.leb_le. lia.
Qed.

Lemma is_on_spec (a b c : point) :
  is_on a b c = true ↔
    (b.1 - a.1) * (c.2 - a.2) = (c.1 - a.1) * (b.2 - a.2)
    ∧ (a.1 ≠ b.1 → Z.min a.1 b.1 ≤ c.1 ≤ Z.max a.1 b.1)
    ∧ (a.1 = b.1 → Z.min a.2 b.2 ≤ c.2 ≤ Z.max a.2 b.2).
Proof.
  unfold is_on, collinear. rewrite andb_true_iff, Z.eqb_eq.
  destruct (Z.eqb_spec a.1 b.1) as [Heq|Hne]; cbn [negb];
    rewrite within_range; intuition lia.
Qed.

Lemma is_on_w_spec (a b c : point) (delta : Z) :
  is_on_w a b c delta = true ↔
    ∃ i j, 0 ≤ i < delta * 3 ∧ 0 ≤ j < delta * 3
           ∧ is_on a b (c.1 + i - 1, c.2 + j - 1) = true.
Proof.
  unfold is_on_w. rewrite existsb_exists. split.
  - intros (i & Hi & Hex). apply existsb_exists in Hex as (j & Hj & Hon).
    apply elem_of_range in Hi, Hj. eauto.
  - intros (i & j & Hi & Hj & Hon). exists i. split; [by apply elem_of_range|].
    apply existsb_exists. exists j. split; [by apply elem_of_range|done].
Qed.

(** C8: the exact test accepts [c] iff it is collinear with [a] and [b]
    and its dominant coordinate (x unless the segment is vertical, then y)
    lies between the endpoints'; for a tolerance [delta >= 1] the windowed
    test accepts [c] iff one of the [3*delta] by [3*delta] candidates
    starting one pixel up and left of [c] passes the exact test, and so it
    accepts every point the exact test accepts. *)
Theorem is_on_w_window (a b c : point) (delta : Z) (Hdelta : 1 ≤ delta) :
  (is_on a b c = true ↔
     (b.1 - a.1) * (c.2 - a.2) = (c.1 - a.1) * (b.2 - a.2)
     ∧ (a.1 ≠ b.1 → Z.min a.1 b.1 ≤ c.1 ≤ Z.max a.1 b.1)
     ∧ (a.1 = b.1 → Z.min a.2 b.2 ≤ c.2 ≤ Z.max a.2 b.2))
  ∧ (is_on_w a b c delta = true ↔
       ∃ i j, 0 ≤ i < delta * 3 ∧ 0 ≤ j < delta * 3
              ∧ is_on a b (c.1 + i - 1, c.2 + j - 1) = true)
  ∧ (is_on a b c = true → is_on_w a b c delta = true).
Proof.
  split; [apply is_on_spec|]. split; [apply is_on_w_spec|].
  intros Hon. apply is_on_w_spec. exists 1, 1.
  repeat split; try lia.
  destruct c as [cx cy]. cbn [fst snd].
  by replace (cx + 1 - 1) with cx by lia; replace (cy + 1 - 1) with cy by lia.
Qed.

Lemma is_on_w_window_witness :
  1 ≤ 2 ∧ (is_on (0, 0) (10, 0) (4, 0) = true →
           is_on_w (0, 0) (10, 0) (4, 0) 2 = true).
Proof.
  split; [lia|].
  apply (is_on_w_window (0, 0) (10, 0) (4, 0) 2). lia.
Defined.

(** ** The image mask *)

Section ImageMaskProperties.
Context `{Canvas}.

(** C1 (amended): a drag movement on a latched edge changes that edge's
    coordinate only and clamps it against the image border: left and top
    become [max] of the pointer coordinate and [min_dist], right and
    bottom become [min] of the pointer coordinate and the image width or
    height less [min_dist]. *)
Theorem drag_callback_clamps_to_border (m : ImageMask) (ex ey side l t r b : Z) :
  drag_side m = Some side →
  0 ≤ side ≤ 3 →
  mask m = [l; t; r; b] →
  ∃ m', drag_callback m ex ey = Ok m'
    ∧ drag_side m' = Some side
    ∧ (side = 0 → mask m' = [Z.max (canvasx ex) (min_dist m); t; r; b]
                  ∧ min_dist m ≤ Z.max (canvasx ex) (min_dist m))
    ∧ (side = 1 → mask m' = [l; Z.max (canvasy ey) (min_dist m); r; b]
                  ∧ min_dist m ≤ Z.max (canvasy ey) (min_dist m))
    ∧ (side = 2 →
         mask m' = [l; t; Z.min (canvasx ex) ((image_shape m).2 - min_dist m); b]
         ∧ Z.min (canvasx ex) ((image_shape m).2 - min_dist m)
           ≤ (image_shape m).2 - min_dist m)
    ∧ (side = 3 →
         mask m' = [l; t; r; Z.min (canvasy ey) ((image_shape m).1 - min_dist m)]
         ∧ Z.min (canvasy ey) ((image_shape m).1 - min_dist m)
           ≤ (image_shape m).1 - min_dist m).
Proof.
  intros Hside Hrange Hmask.
  assert (side = 0 ∨ side = 1 ∨ side = 2 ∨ side = 3) as Hcases by lia.
  unfold drag_callback. rewrite Hside. cbn match. rewrite Hside, Hmask.
  destruct Hcases as [-> | [-> | [-> | ->]]]; cbn;
    (eexists; split; [reflexivity|]; cbn;
     split; [done|]; repeat split; intros; try lia; try done).
Qed.

End ImageMaskProperties.

Example mask_latches :
  init (100, 100) None true true 5 = Ok shown_mask
  ∧ mask shown_mask = [5; 5; 95; 95] ∧ drag_side shown_mask = None
  ∧ drag_callback (H:=plain_canvas) shown_mask 5 50 = Ok left_latched_mask
  ∧ mask left_latched_mask = [5; 5; 95; 95]
  ∧ drag_side left_latched_mask = Some 0
  ∧ drag_callback (H:=plain_canvas) shown_mask 95 50 = Ok right_latched_mask
  ∧ mask right_latched_mask = [5; 5; 95; 95]
  ∧ drag_side right_latched_mask = Some 2.
Proof. repeat split. Qed.

Lemma drag_callback_clamps_to_border_witness :
  drag_side right_latched_mask = Some 2 ∧ 0 ≤ 2 ≤ 3
  ∧ mask right_latched_mask = [5; 5; 95; 95]
  ∧ ∃ m', drag_callback (H:=plain_canvas) right_latched_mask 200 50 = Ok m'
          ∧ mask m' = [5; 5; 95; 95].
Proof.
  split; [reflexivity|]. split; [lia|]. split; [reflexivity|].
  destruct (drag_callback_clamps_to_border (H:=plain_canvas)
              right_latched_mask 200 50 2 5 5 95 95)
    as (m' & Hrun & _ & _ & _ & H2 & _); [reflexivity | lia | reflexivity |].
  exists m'. split; [exact Hrun|]. exact (proj1 (H2 eq_refl)).
Defined.

(** C1, as stated, fails: with the left edge latched the pointer pulls it
    past the right edge; the callback stores 200 where
    [right - min_dist] is 90. *)
Lemma drag_left_crosses_right :
  drag_callback (H:=plain_canvas) shown_mask 5 50 = Ok left_latched_mask
  ∧ ∃ m', drag_callback (H:=plain_canvas) left_latched_mask 200 50 = Ok m'
          ∧ mask m' = [200; 5; 95; 95]
          ∧ ¬ (200 < 95) ∧ 200 ≠ 95 - min_dist m'.
Proof.
  split; [reflexivity|].
  eexists. split; [vm_compute; reflexivity|].
  cbn. repeat split; lia.
Qed.

(** ** The board *)

Section GrBoardProperties.
Context {image : Type} `{!Collaborators image}.

Abbreviation board := (GrBoard image).

Lemma process_run (s : board) :
  process s =
    (Ok tt,
     match _img s, _gen_board s with
     | Some img, false =>
         set_res (normalized <$> (process_img img (_params s)).1)
           (set_params (process_img img (_params s)).2 s)
     | _, _ => set_res None s
     end).
Proof.
  unfold process.
  destruct (_img s) as [img|]; [|done].
  destruct (_gen_board s); [done|].
  destruct (process_img img (_params s))
    as [[[[bs|] [ws|] ? ? ? ? ? ? ?]|] params];
    by unfold mbind, M_bind, bind, res_getitem, res_update, modify, ret.
Qed.

(** C2: [process] on a board without image, or with a generated one,
    leaves the result absent; on a loaded image it stores the detector's
    output with absent stone lists replaced by empty ones; so a result
    left by [process] has both stone lists present. *)
Theorem process_normalizes (s : board) :
  ∃ s', process s = (Ok tt, s')
    ∧ (_img s = None ∨ _gen_board s = true → _res s' = None)
    ∧ (∀ img, _img s = Some img → _gen_board s = false →
         _res s' = normalized <$> (process_img img (_params s)).1)
    ∧ (∀ r, _res s' = Some r →
         ∃ bs ws, GR_STONES_B r = Some bs ∧ GR_STONES_W r = Some ws)
    ∧ (∀ img r, _img s = Some img → _gen_board s = false →
         (process_img img (_params s)).1 = Some r →
         GR_STONES_B r = None → GR_STONES_W r = None →
         (_res s' ≫= GR_STONES_B) = Some [] ∧ (_res s' ≫= GR_STONES_W) = Some [])
    ∧ _img s' = _img s ∧ _src_img s' = _src_img s
    ∧ _gen_board s' = _gen_board s.
Proof.
  eexists. split; [apply process_run|].
  destruct (_img s) as [img|] eqn:Himg; [destruct (_gen_board s) eqn:Hgen|];
    cbn; (split; [|split; [|split; [|split]]]); try done.
  - by intros [|].
  - by intros img' [= <-] _.
  - intros r Hr. destruct (process_img img (_params s)).1 as [r0|]; [|done].
    cbn in Hr. injection Hr as <-. cbn. eauto.
  - intros img' r [= <-] _ -> HB HW. cbn. by rewrite HB, HW.
Qed.

(** C5: when the image cannot be decoded [load_image] raises
    "Image file not found ..." and the board is as it was. *)
Theorem load_image_unreadable (s : board) (filename : string)
    (f_with_params f_process : bool) :
  imread filename = None →
  load_image filename f_with_params f_process s =
    (Raise (Exception ("Image file not found " +:+ filename)), s).
Proof. intros Hread. unfold load_image. by rewrite Hread. Qed.

(** C9: the [params] setter stores the assigned parameters and also
    clears the generated flag; [process] on a generated board leaves no
    result, and after the setter it runs the detector on the generated
    image. *)
Theorem params_setter_clears_generated (s : board) (p : gmap string pvalue) :
  ∃ s', params_setter p s = (Ok tt, s')
    ∧ _gen_board s' = false
    ∧ _params s' = assign (_params s) p None
    ∧ _img s' = _img s ∧ _res s' = _res s ∧ _src_img s' = _src_img s
    ∧ _img_file s' = _img_file s ∧ _src_img_file s' = _src_img_file s
    ∧ (∀ img, _img s = Some img →
         _res (process s').2 = normalized <$> (process_img img (_params s')).1)
    ∧ (∀ shape,
         let sg := (generate shape s).2 in
         let sp := (params_setter p sg).2 in
         _gen_board sg = true
         ∧ process sg = (Ok tt, set_res None sg)
         ∧ _res (process sp).2 =
             normalized <$>
               (process_img (generate_board shape (_res s))
                  (assign (_params s) p None)).1).
Proof.
  eexists. split; [reflexivity|]. cbn. repeat split.
  - intros img Himg. rewrite process_run. cbn. by rewrite Himg.
  - by rewrite process_run.
Qed.

(** *** Frame reasoning for the methods *)

Lemma keeps_bind {A B C} (f : board → C) (m : M A) (k : A → M B) :
  keeps f m → (∀ a, keeps f (k a)) → keeps f (m ≫= k).
Proof.
  intros Hm Hk s. unfold mbind, M_bind, bind.
  specialize (Hm s). destruct (m s) as [[a|e] s1]; cbn in *; [|done].
  by rewrite Hk.
Qed.

Lemma keeps_ret {A C} (f : board → C) (a : A) : keeps f (ret a).
Proof. done. Qed.

Lemma keeps_lift {A C} (f : board → C) (o : outcome A) : keeps f (lift o).
Proof. done. Qed.

Lemma keeps_gets {A C} (f : board → C) (g : board → A) : keeps f (gets g).
Proof. done. Qed.

Lemma keeps_modify {C} (f : board → C) (g : board → board) :
  (∀ s, f (g s) = f s) → keeps f (modify g).
Proof. intros Hg s. apply Hg. Qed.

Lemma bind_modify_run {A} (g : board → board) (k : unit → M A) (s : board) :
  (modify g ≫= k) s = k tt (g s).
Proof. done. Qed.

Lemma keeps_src_img_transform (rect : pvalue) :
  keeps _src_img (transform_image rect).
Proof.
  unfold transform_image.
  destruct rect; try apply keeps_ret;
    (apply keeps_bind; [apply keeps_lift|]; intros n;
     destruct (n =? 4); [|apply keeps_ret];
     apply keeps_bind; [apply keeps_gets|]; intros img;
     apply keeps_bind; [apply keeps_lift|]; intros img';
     apply keeps_bind; [by apply keeps_modify|];
     intros _; unfold params_setitem; by apply keeps_modify).
Qed.

Lemma keeps_res_getitem {A C} (f : board → C) (g : result image → A) :
  keeps f (res_getitem g).
Proof. intros s. unfold res_getitem. by destruct (_res s). Qed.

Lemma keeps_src_img_resize (max_size : option Z) (scale : option (float * float)) :
  keeps _src_img (resize_board max_size scale).
Proof.
  unfold resize_board, res_update.
  apply keeps_bind; [apply keeps_gets|]; intros img.
  apply keeps_bind; [apply keeps_lift|]; intros [img' sc].
  apply keeps_bind; [by apply keeps_modify|]; intros _.
  apply keeps_bind; [apply keeps_gets|]; intros res.
  destruct (is_none res); [apply keeps_ret|].
  repeat (first [ apply keeps_bind;
                  [first [apply keeps_res_getitem | apply keeps_lift
                         | by apply keeps_modify]|]; intros ?
                | by apply keeps_modify ]).
Qed.

Lemma keeps_src_img_process : keeps _src_img process.
Proof.
  intros s. rewrite process_run. cbn.
  by destruct (_img s), (_gen_board s).
Qed.

Lemma load_image_src_img (s s1 : board) (filename : string)
    (f_with_params f_process b : bool) :
  load_image filename f_with_params f_process s = (Ok b, s1) →
  ∃ img, imread filename = Some img ∧ _src_img s1 = Some img.
Proof.
  unfold load_image. destruct (imread filename) as [img|]; [|done].
  intros Hrun. exists img. split; [done|].
  apply (f_equal snd) in Hrun. cbn [snd] in Hrun. rewrite <- Hrun.
  rewrite !bind_modify_run.
  match goal with
  | |- _src_img (?m ?s0).2 = _ =>
      trans (_src_img s0); [generalize s0; change (keeps _src_img m)|done]
  end.
  apply keeps_bind.
  { destruct f_with_params; [|apply keeps_ret]. cbn zeta.
    destruct (is_file _); [|apply keeps_ret].
    apply keeps_bind; [|intros; apply keeps_ret].
    unfold load_params. apply keeps_bind; [apply keeps_lift|].
    intros. by apply keeps_modify. }
  intros loaded. apply keeps_bind; [apply keeps_gets|]. intros has.
  apply keeps_bind.
  { destruct has; [|apply keeps_ret].
    apply keeps_bind; [|intros; apply keeps_src_img_transform].
    intros s2. unfold params_getitem. by destruct (_ !! _). }
  intros _. apply keeps_bind; [|intros; apply keeps_ret].
  destruct f_process; [apply keeps_src_img_process|apply keeps_ret].
Qed.

Lemma edited_src_img (s s' : board) : edited s s' → _src_img s' = _src_img s.
Proof.
  induction 1 as [s | s s' s'' rect o Hrun _ IH | s s' s'' ms sc o Hrun _ IH];
    [done| |]; rewrite IH; apply (f_equal snd) in Hrun; cbn in Hrun; subst s'.
  - apply keeps_src_img_transform.
  - apply keeps_src_img_resize.
Qed.

(** C3: after a load and any sequence of transform and resize calls,
    [reset_image] makes the image the stored source image, which still
    is the decoded file, sets [TRANSFORM], [BOARD_EDGES] and
    [BOARD_SIZE] to [None] and leaves every other parameter, and the
    rest of the board, as it was. *)
Theorem reset_image_restores (s s1 s2 : board) (filename : string)
    (f_with_params f_process b : bool) :
  load_image filename f_with_params f_process s = (Ok b, s1) →
  edited s1 s2 →
  ∃ s3 img, reset_image s2 = (Ok tt, s3)
    ∧ imread filename = Some img
    ∧ _img s3 = Some img ∧ _src_img s3 = Some img
    ∧ _params s3 !! "TRANSFORM" = Some PNone
    ∧ _params s3 !! "BOARD_EDGES" = Some PNone
    ∧ _params s3 !! "BOARD_SIZE" = Some PNone
    ∧ (∀ key, key ≠ "TRANSFORM" → key ≠ "BOARD_EDGES" → key ≠ "BOARD_SIZE" →
         _params s3 !! key = _params s2 !! key)
    ∧ _res s3 = _res s2 ∧ _gen_board s3 = _gen_board s2
    ∧ _img_file s3 = _img_file s2 ∧ _src_img_file s3 = _src_img_file s2.
Proof.
  intros Hload Hedit.
  destruct (load_image_src_img _ _ _ _ _ _ Hload) as (img & Hread & Hsrc).
  apply edited_src_img in Hedit. rewrite Hsrc in Hedit.
  eexists _, img. split; [reflexivity|]. cbn.
  repeat split; try done.
  - by rewrite lookup_insert_ne, lookup_insert_ne, lookup_insert_eq.
  - by rewrite lookup_insert_ne, lookup_insert_eq.
  - by rewrite lookup_insert_eq.
  - intros key H1 H2 H3. by rewrite !lookup_insert_ne.
Qed.

End GrBoardProperties.

(** ** Resizing *)

Section GrBoardResize.
Context {image : Type} `{!Collaborators image}.

Abbreviation board := (GrBoard image).

Lemma resize_stone_scaled (sx sy : float) (st st' : stone) :
  resize_stone (sx, sy) st = (Ok tt, st') ↔ scaled_by sx sy st st'.
Proof.
  unfold resize_stone, scaled_by. cbn.
  destruct (scale_entry (GR_X st) sx) as [x|e]; cbn.
  - destruct (scale_entry (GR_Y st) sy) as [y|e]; cbn.
    + destruct (scale_entry (GR_R st) (py_max sx sy)) as [r|e]; cbn.
      * split.
        -- by intros [= <-].
        -- intros ([= ->] & [= ->] & [= ->] & Ha & Hb).
           destruct st, st'; cbn in *. by subst.
      * split; [done|]. by intros (_ & _ & ? & _).
    + split; [done|]. by intros (_ & ? & _).
  - split; [done|]. by intros (? & _).
Qed.

Lemma resize_stones_scaled (sx sy : float) (l l' : list stone) :
  resize_stones l (sx, sy) = (Ok tt, l') ↔ Forall2 (scaled_by sx sy) l l'.
Proof.
  revert l'. induction l as [|st l IH]; intros l'; cbn.
  - split; [intros [= <-]; constructor|]. by intros ->%Forall2_nil_inv_l.
  - destruct (resize_stone (sx, sy) st) as [[[]|e] st1] eqn:Hst.
    + apply resize_stone_scaled in Hst.
      destruct (resize_stones l (sx, sy)) as [o l1] eqn:Hl. split.
      * intros [= -> <-]. constructor; [done|]. by apply IH.
      * intros (st2 & l2 & Hst2 & Hl2 & ->)%Forall2_cons_inv_l.
        apply IH in Hl2. injection Hl2 as -> <-.
        apply resize_stone_scaled in Hst2, Hst. congruence.
    + split; [done|].
      intros (st2 & l2 & Hst2 & _ & ->)%Forall2_cons_inv_l.
      apply resize_stone_scaled in Hst2. congruence.
Qed.

Lemma scalable_scaled (sx sy : float) (l : list stone) :
  Forall (scalable sx sy) l → ∃ l', Forall2 (scaled_by sx sy) l l'.
Proof.
  induction 1 as [|st l [st' Hst] _ [l' IH]]; [by exists []|].
  exists (st' :: l'). by constructor.
Qed.

Lemma resize_stone_grid (scale : float * float) (st : stone) :
  same_grid st (resize_stone scale st).2.
Proof.
  unfold resize_stone, same_grid.
  destruct (scale_entry (GR_X st) scale.1); [|done]. cbn.
  destruct (scale_entry (GR_Y st) scale.2); [|done]. cbn.
  by destruct (scale_entry (GR_R st) (py_max scale.1 scale.2)).
Qed.

(** The loop of [resize_stones] never touches columns and rows, also
    when it is cut short. *)
Lemma resize_stones_grid (scale : float * float) (l : list stone) :
  Forall2 same_grid l (resize_stones l scale).2.
Proof.
  induction l as [|st l IH]; cbn; [constructor|].
  pose proof (resize_stone_grid scale st) as Hst.
  destruct (resize_stone scale st) as [[[]|e] st1]; cbn in *.
  - destruct (resize_stones l scale) as [o l1]. by constructor.
  - constructor; [done|]. apply Forall_Forall2_diag, Forall_true. done.
Qed.


(** [resize_board], step by step. *)
Lemma resize_board_run (s : board) (max_size : option Z)
    (scale : option (float * float)) :
  resize_board max_size scale s =
    match _img s with
    | None => (Raise TypeError, s)
    | Some img =>
        match resize2 img max_size with
        | Raise e => (Raise e, s)
        | Ok (img', sc) =>
            let s1 := set_img (Some img') s in
            match _res s with
            | None => (Ok tt, s1)
            | Some r =>
                match GR_STONES_B r with
                | None => (Raise TypeError, s1)
                | Some bs =>
                    let r1 := set_STONES_B (Some (resize_stones bs sc).2) r in
                    match (resize_stones bs sc).1 with
                    | Raise e => (Raise e, set_res (Some r1) s1)
                    | Ok _ =>
                        match GR_STONES_W r with
                        | None => (Raise TypeError, set_res (Some r1) s1)
                        | Some ws =>
                            let r2 :=
                              set_STONES_W (Some (resize_stones ws sc).2) r1 in
                            match (resize_stones ws sc).1 with
                            | Raise e => (Raise e, set_res (Some r2) s1)
                            | Ok _ =>
                                (Ok tt,
                                 set_res
                                   (Some (resized sc (resize_stones bs sc).2
                                            (resize_stones ws sc).2 r)) s1)
                            end
                        end
                    end
                end
            end
        end
    end.
Proof.
  unfold resize_board, mbind, M_bind, bind, gets, lift, modify, res_update,
    res_getitem, ret.
  destruct (_img s) as [img|]; [|done].
  destruct (resize2 img max_size) as [[img' sc]|e]; [|done]. cbn.
  destruct (_res s) as [r|] eqn:Hres;
    repeat (progress (cbn; rewrite ?Hres)); [|done].
  destruct (GR_STONES_B r) as [bs|] eqn:Hb;
    repeat (progress (cbn; rewrite ?Hres)); [|done].
  destruct (resize_stones bs sc) as [[[]|e] bs1];
    repeat (progress (cbn; rewrite ?Hres)); [|done].
  destruct (GR_STONES_W r) as [ws|] eqn:Hw;
    repeat (progress (cbn; rewrite ?Hres, ?Hw)); [|done].
  destruct (resize_stones ws sc) as [[[]|e] ws1];
    repeat (progress (cbn; rewrite ?Hres, ?Hw)); done.
Qed.



End GrBoardResize.

(** ** Lookups and export *)

Lemma alternate_nil_r {A} (l : list A) : alternate l [] = l.
Proof. by destruct l. Qed.

Section GrBoardLookups.
Context {image : Type} `{!Collaborators image}.

Abbreviation board := (GrBoard image).

Lemma stones_getitem_B (brd : board) (r : result image) :
  _res brd = Some r → stones_getitem (stones brd) "B" = Ok (GR_STONES_B r).
Proof.
  intros Hres. unfold stones, stones_getitem. rewrite Hres.
  by rewrite lookup_insert_ne, lookup_insert_eq.
Qed.

Lemma stones_getitem_W (brd : board) (r : result image) :
  _res brd = Some r → stones_getitem (stones brd) "W" = Ok (GR_STONES_W r).
Proof.
  intros Hres. unfold stones, stones_getitem. rewrite Hres.
  by rewrite lookup_insert_eq.
Qed.

Lemma save_sgf_round_raise (bs ws : list stone) (e : exn) (l : list nat) :
  foldl (save_sgf_round bs ws) (Raise e) l = Raise e.
Proof. induction l as [|n l IH]; [done|]. exact IH. Qed.

Lemma save_sgf_rounds (bs ws : list stone) (n : nat) :
  ∀ (k : nat) (game : Sgf_game),
    n = Nat.max (length ws - k) (length bs - k) →
    foldl (save_sgf_round bs ws) (Ok game) (seq k n) =
      let moves := alternate (zero_based "b" <$> drop k bs)
                     (zero_based "w" <$> drop k ws) in
      let! _ := accepted (sgf_size game) moves in
      Ok (mkSgf_game (sgf_size game) (sgf_moves game ++ moves)).
Proof.
  induction n as [|n IH]; intros k [size moves] Hn.
  - rewrite !drop_ge by lia. cbn. by rewrite app_nil_r.
  - cbn [seq foldl]. unfold save_sgf_round at 2. unfold _add_stone.
    cbn [obind].
    destruct (bs !! k) as [b|] eqn:Hb; destruct (ws !! k) as [w|] eqn:Hw.
    + rewrite (drop_S bs b k Hb), (drop_S ws w k Hw). cbn.
      destruct (set_move_check size "b" (GR_B b - 1, GR_A b - 1));
        [|cbn; by rewrite save_sgf_round_raise]. cbn.
      destruct (set_move_check size "w" (GR_B w - 1, GR_A w - 1));
        [|cbn; by rewrite save_sgf_round_raise]. cbn.
      rewrite IH by lia. cbn.
      destruct (accepted size _); [|done]. cbn. by rewrite <- !app_assoc.
    + apply lookup_ge_None in Hw.
      rewrite (drop_S bs b k Hb), !(drop_ge ws) by lia. cbn.
      destruct (set_move_check size "b" (GR_B b - 1, GR_A b - 1));
        [|cbn; by rewrite save_sgf_round_raise]. cbn.
      rewrite IH by lia. cbn. rewrite !(drop_ge ws) by lia. cbn.
      rewrite !alternate_nil_r.
      destruct (accepted size _); [|done]. cbn. by rewrite <- app_assoc.
    + apply lookup_ge_None in Hb.
      rewrite (drop_S ws w k Hw), !(drop_ge bs) by lia. cbn.
      destruct (set_move_check size "w" (GR_B w - 1, GR_A w - 1));
        [|cbn; by rewrite save_sgf_round_raise]. cbn.
      rewrite IH by lia. cbn. rewrite !(drop_ge bs) by lia. cbn.
      destruct (accepted size _); [|done]. cbn. by rewrite <- app_assoc.
    + apply lookup_ge_None in Hb, Hw. lia.
Qed.

Lemma accepted_Forall (size : pvalue) (moves : list (string * (Z * Z))) :
  accepted size moves = Ok tt
  ↔ Forall (λ m, set_move_check size m.1 m.2 = Ok tt) moves.
Proof.
  induction moves as [|m moves IH]; cbn; [by split|].
  rewrite Forall_cons, <- IH.
  destruct (set_move_check size m.1 m.2) as [[]|e]; cbn.
  - split; [by intros Hrest|by intros [_ Hrest]].
  - split; [done|by intros [? _]].
Qed.

(** [save_sgf] on a board whose result has both stone lists. *)
Lemma save_sgf_run (brd : board) (r : result image) (bs ws : list stone)
    (filename : option string) :
  _res brd = Some r → GR_STONES_B r = Some bs → GR_STONES_W r = Some ws →
  save_sgf brd filename =
    let size := PNum (GR_BOARD_SIZE r) in
    let moves := alternate (zero_based "b" <$> bs) (zero_based "w" <$> ws) in
    let! name :=
      match filename with
      | Some f => Ok f
      | None =>
          match _img_file brd with
          | Some f => Ok (with_suffix f ".sgf")
          | None => Raise TypeError
          end
      end in
    let! _ := Sgf_game_check size in
    let! _ := accepted size moves in
    let! _ := write_bytes name in
    Ok (name, mkSgf_game size moves).
Proof.
  intros Hres Hb Hw. unfold save_sgf. rewrite Hres.
  assert (board_size brd = PNum (GR_BOARD_SIZE r)) as ->
    by (unfold board_size; by rewrite Hres).
  destruct (match filename with
            | Some f => Ok f
            | None => match _img_file brd with
                      | Some f => Ok (with_suffix f ".sgf")
                      | None => Raise TypeError
                      end
            end) as [name|e]; [|done]. cbn [obind].
  destruct (Sgf_game_check (PNum (GR_BOARD_SIZE r))) as [[]|e]; [|done].
  cbn [obind].
  rewrite (stones_getitem_W _ _ Hres), (stones_getitem_B _ _ Hres).
  cbn [obind]. rewrite Hb, Hw. cbn [obind iter_stones].
  rewrite (save_sgf_rounds bs ws _ 0) by lia. cbn. rewrite !drop_0.
  by destruct (accepted _ _) as [[]|e].
Qed.

(** C7: without a result [save_sgf] raises "Recognition results are not
    available"; with one, when the SGF library accepts the board size
    and the moves and the file can be written, the game written has the
    black and the white stones in turn by index, each as its row and
    column less one; when the library refuses the size or a move, or the
    file cannot be written, that error is raised. *)
Theorem save_sgf_record (brd : board) (filename : option string) :
  (_res brd = None →
     save_sgf brd filename =
       Raise (Exception "Recognition results are not available"))
  ∧ (∀ r bs ws, _res brd = Some r →
       GR_STONES_B r = Some bs → GR_STONES_W r = Some ws →
       ∀ name, (filename = Some name
                ∨ filename = None
                  ∧ ∃ f, _img_file brd = Some f ∧ name = with_suffix f ".sgf") →
       let size := PNum (GR_BOARD_SIZE r) in
       let moves :=
         alternate (zero_based "b" <$> bs) (zero_based "w" <$> ws) in
       (Sgf_game_check size = Ok tt →
        Forall (λ m, set_move_check size m.1 m.2 = Ok tt) moves →
        write_bytes name = Ok tt →
        save_sgf brd filename = Ok (name, mkSgf_game size moves))
       ∧ (∀ e, Sgf_game_check size = Raise e →
            save_sgf brd filename = Raise e)
       ∧ (∀ e, Sgf_game_check size = Ok tt → accepted size moves = Raise e →
            save_sgf brd filename = Raise e)
       ∧ (∀ e, Sgf_game_check size = Ok tt → accepted size moves = Ok tt →
            write_bytes name = Raise e →
            save_sgf brd filename = Raise e)).
Proof.
  split.
  - intros Hres. unfold save_sgf. by rewrite Hres.
  - intros r bs ws Hres Hb Hw name Hname size moves.
    rewrite (save_sgf_run brd r bs ws filename Hres Hb Hw). cbn zeta.
    fold size. fold moves.
    assert (match filename with
            | Some f => Ok f
            | None => match _img_file brd with
                      | Some f => Ok (with_suffix f ".sgf")
                      | None => Raise TypeError
                      end
            end = Ok name) as ->.
    { destruct Hname as [-> | [-> (f & -> & ->)]]; done. }
    cbn [obind]. split; [|split; [|split]].
    + intros -> Hmoves ->. apply accepted_Forall in Hmoves.
      by rewrite Hmoves.
    + by intros e ->.
    + by intros e -> ->.
    + by intros e -> -> ->.
Qed.

(** C10: without a result [all_stones] is the empty list while
    [black_stones] and [white_stones] are [None]; with one, it lists the
    black stones, then the white ones, each as its five numbers followed
    by ['B'] or ['W']. *)
Theorem all_stones_combined (s : board) :
  (_res s = None →
     all_stones s = [] ∧ black_stones s = None ∧ white_stones s = None)
  ∧ (∀ r bs ws, _res s = Some r →
       GR_STONES_B r = Some bs → GR_STONES_W r = Some ws →
       all_stones s =
         ((λ st, [INum (GR_X st); INum (GR_Y st); INum (GR_A st);
                  INum (GR_B st); INum (GR_R st); IStr "B"]) <$> bs)
         ++ ((λ st, [INum (GR_X st); INum (GR_Y st); INum (GR_A st);
                     INum (GR_B st); INum (GR_R st); IStr "W"]) <$> ws)
       ∧ ∀ i row, all_stones s !! i = Some row →
           if bool_decide (i < length bs)%nat
           then last row = Some (IStr "B") else last row = Some (IStr "W")).
Proof.
  split.
  - intros Hres. unfold all_stones, black_stones, white_stones.
    by rewrite Hres.
  - intros r bs ws Hres Hb Hw.
    assert (all_stones s =
      ((λ st, [INum (GR_X st); INum (GR_Y st); INum (GR_A st);
               INum (GR_B st); INum (GR_R st); IStr "B"]) <$> bs)
      ++ ((λ st, [INum (GR_X st); INum (GR_Y st); INum (GR_A st);
                  INum (GR_B st); INum (GR_R st); IStr "W"]) <$> ws)) as Hall.
    { unfold all_stones, black_stones, white_stones.
      by rewrite Hres, Hb, Hw. }
    split; [exact Hall|]. intros i row. rewrite Hall.
    case_bool_decide as Hi.
    + rewrite lookup_app_l by by rewrite length_fmap.
      rewrite list_lookup_fmap. destruct (bs !! i); [|done].
      by intros [= <-].
    + rewrite lookup_app_r by (rewrite length_fmap; lia).
      rewrite list_lookup_fmap. destruct (ws !! _); [|done].
      by intros [= <-].
Qed.

(** C6 (amended): without a result [find_stone] returns [(None, None)];
    with a colour given it searches that colour's stones only and returns
    what the search gave together with the colour given, also when the
    search gave nothing; without a colour it searches the black stones,
    then the white ones, and returns the stone with the colour it was
    found in, or [(None, None)] when neither search gave one; the label
    "A1" is looked up as the position (1, 1), the column letters counting
    on from A without a gap and the row read as a number. *)
Theorem find_stone_lookup (brd : board) (c p : option (Z * Z))
    (s : option string) :
  (_res brd = None → ∀ bw, find_stone brd c p s bw = Ok (None, None))
  ∧ (∀ r, _res brd = Some r →
       (∀ found, _find c p s (GR_STONES_B r) = Ok found →
          find_stone brd c p s (Some "B") = Ok (found, Some "B"))
       ∧ (∀ found, _find c p s (GR_STONES_W r) = Ok found →
            find_stone brd c p s (Some "W") = Ok (found, Some "W"))
       ∧ (∀ st, _find c p s (GR_STONES_B r) = Ok (Some st) →
            find_stone brd c p s None = Ok (Some st, Some "B"))
       ∧ (∀ st, _find c p s (GR_STONES_B r) = Ok None →
            _find c p s (GR_STONES_W r) = Ok (Some st) →
            find_stone brd c p s None = Ok (Some st, Some "W"))
       ∧ (_find c p s (GR_STONES_B r) = Ok None →
          _find c p s (GR_STONES_W r) = Ok None →
          find_stone brd c p s None = Ok (None, None)))
  ∧ (∀ bw, find_stone brd None None (Some "A1") bw
           = find_stone brd None (Some (1, 1)) None bw)
  ∧ (∀ sts, _find None None (Some "J10") sts = Ok (find_position 10 10 sts)
            ∧ _find None None (Some "t19") sts = Ok (find_position 20 19 sts)).
Proof.
  split; [|split; [|split]].
  - intros Hres bw. unfold find_stone. by rewrite Hres.
  - intros r Hres. unfold find_stone, black_stones, white_stones.
    rewrite Hres, (stones_getitem_B _ _ Hres), (stones_getitem_W _ _ Hres).
    cbn [obind]. repeat split.
    + by intros found ->.
    + by intros found ->.
    + by intros st ->.
    + by intros st -> ->.
    + by intros -> ->.
  - reflexivity.
  - intros sts. split; reflexivity.
Qed.

End GrBoardLookups.

(** ** The model on a concrete board *)

Example load_image_sample :
  load_image (Collaborators0:=sample_world) "board.png" true true new_board
  = (Ok false, sample_board).
Proof. vm_compute. reflexivity. Qed.

(** The float model on products that are rounded: [3 * (1/3)] is [1.0]
    and [10 * 0.3] is [3.0] in binary64, and [int()] drops the fraction
    toward zero. *)
Example float_samples :
  let third := float_div (float_of_int 1) (float_of_int 3) in
  let tenths := float_div (float_of_int 3) (float_of_int 10) in
  let half := float_div (float_of_int 1) (float_of_int 2) in
  int_of_binary64 (float_mul (float_of_int 3) third) = Ok 1
  ∧ int_of_binary64 (float_mul (float_of_int 10) tenths) = Ok 3
  ∧ int_of_binary64 (float_mul (float_of_int 3) half) = Ok 1
  ∧ int_of_binary64 (float_mul (float_of_int (-3)) half) = Ok (-1)
  ∧ int_of_binary64 (float_div (float_of_int 1) (float_of_int 0))
    = Raise OverflowError
  ∧ int_of_binary64 (float_div (float_of_int 0) (float_of_int 0))
    = Raise ValueError
  ∧ float_of_int (2 ^ 53 + 1) = float_of_int (2 ^ 53).
Proof. repeat split; vm_compute; reflexivity. Qed.

Example py_int_samples :
  py_int "19" = Ok 19 ∧ py_int " -7 " = Ok (-7) ∧ py_int "1_0" = Ok 10
  ∧ py_int "" = Raise ValueError ∧ py_int "x" = Raise ValueError.
Proof. repeat split. Qed.

(** *** The theorems on the sample boards *)

Lemma process_normalizes_witness :
  ∃ s', process (Collaborators0:=sample_world) (set_res None sample_board)
        = (Ok tt, s')
    ∧ _res s' = _res sample_board
    ∧ (_res s' ≫= GR_STONES_W) = Some [].
Proof.
  destruct (process_normalizes (Collaborators0:=sample_world)
              (set_res None sample_board))
    as (s' & Hrun & _ & Hloaded & _ & _).
  exists s'. split; [exact Hrun|].
  rewrite (Hloaded (384, 512) eq_refl eq_refl). split; reflexivity.
Defined.

Lemma params_setter_clears_generated_witness :
  let sg := (generate (Collaborators0:=sample_world) [500; 500] new_board).2 in
  let sp := (params_setter (Collaborators0:=sample_world) ∅ sg).2 in
  _gen_board sg = true
  ∧ _res (process (Collaborators0:=sample_world) sg).2 = None
  ∧ _gen_board sp = false
  ∧ _res (process (Collaborators0:=sample_world) sp).2 = _res sample_board.
Proof.
  intros sg sp.
  destruct (params_setter_clears_generated (Collaborators0:=sample_world)
              new_board ∅)
    as (s' & _ & _ & _ & _ & _ & _ & _ & _ & _ & Hgen).
  destruct (Hgen [500; 500]) as (Hflag & Hskip & Hdetect).
  subst sg sp.
  split; [exact Hflag|]. split; [by rewrite Hskip|].
  split; [reflexivity|]. rewrite Hdetect. reflexivity.
Defined.

Lemma save_sgf_record_witness :
  save_sgf (Collaborators0:=sample_world) played_board None
  = Ok ("board.sgf",
        mkSgf_game (PNum 19)
          [("b", (3, 3)); ("w", (3, 2)); ("b", (0, 0)); ("b", (0, 1))]).
Proof.
  destruct (proj2 (save_sgf_record (Collaborators0:=sample_world)
                     played_board None)
              (default sample_result (_res played_board))
              [mkStone 203 101 4 4 10; mkStone 41 40 1 1 10;
               mkStone 60 40 2 1 10]
              [mkStone 100 101 3 4 10] eq_refl eq_refl eq_refl "board.sgf")
    as [Hwritten _].
  { right. split; [reflexivity|]. exists "board.png". split; reflexivity. }
  apply Hwritten; [reflexivity| |reflexivity].
  repeat constructor.
Defined.

(** In the sample world a stone outside the board of 19 lines, a board
    size the library does not take and a file without name make
    [save_sgf] raise. *)
Example save_sgf_refused :
  save_sgf (Collaborators0:=sample_world)
    (set_res (Some (mkResult (Some [mkStone 41 40 20 1 10]) (Some [])
                      sample_edges sample_spacing 19 19 19 (384, 512) ∅))
       sample_board) None
  = Raise ValueError
  ∧ save_sgf (Collaborators0:=sample_world)
      (set_res (Some (mkResult (Some []) (Some [])
                        sample_edges sample_spacing 19 19 27 (384, 512) ∅))
         sample_board) None
    = Raise ValueError
  ∧ save_sgf (Collaborators0:=sample_world) played_board (Some EmptyString)
    = Raise (OSError "No such file or directory").
Proof. split; [|split]; vm_compute; reflexivity. Qed.

Lemma all_stones_combined_witness :
  all_stones played_board
  = [[INum 203; INum 101; INum 4; INum 4; INum 10; IStr "B"];
     [INum 41; INum 40; INum 1; INum 1; INum 10; IStr "B"];
     [INum 60; INum 40; INum 2; INum 1; INum 10; IStr "B"];
     [INum 100; INum 101; INum 3; INum 4; INum 10; IStr "W"]].
Proof.
  apply (proj2 (all_stones_combined played_board)
           (default sample_result (_res played_board))
           [mkStone 203 101 4 4 10; mkStone 41 40 1 1 10; mkStone 60 40 2 1 10]
           [mkStone 100 101 3 4 10] eq_refl eq_refl eq_refl).
Defined.

Lemma find_stone_lookup_witness :
  find_stone (Collaborators0:=sample_world) played_board None None (Some "c4") None
  = Ok (Some (mkStone 100 101 3 4 10), Some "W")
  ∧ find_stone (Collaborators0:=sample_world) played_board None None (Some "A1")
      (Some "B")
    = Ok (Some (mkStone 41 40 1 1 10), Some "B").
Proof.
  destruct (find_stone_lookup (Collaborators0:=sample_world) played_board
              None None (Some "c4"))
    as (_ & Hfound & _ & _).
  destruct (Hfound _ eq_refl) as (_ & _ & _ & Hwhite & _).
  split; [apply Hwhite; reflexivity|].
  destruct (find_stone_lookup (Collaborators0:=sample_world) played_board
              None None (Some "A1"))
    as (_ & Hfound' & _ & _).
  destruct (Hfound' _ eq_refl) as (Hblack & _).
  apply Hblack. reflexivity.
Defined.

Lemma load_image_unreadable_witness :
  imread (Collaborators:=sample_world) "missing.png" = None
  ∧ load_image (Collaborators0:=sample_world) "missing.png" true true sample_board
    = (Raise (Exception "Image file not found missing.png"), sample_board).
Proof.
  split; [reflexivity|].
  apply (load_image_unreadable (Collaborators0:=sample_world)
           sample_board "missing.png" true true).
  reflexivity.
Defined.

Lemma reset_image_restores_witness :
  let rect := PList [PList [PNum 0; PNum 0]; PList [PNum 390; PNum 0];
                     PList [PNum 390; PNum 290]; PList [PNum 0; PNum 290]] in
  let s1 := (transform_image (Collaborators0:=sample_world) rect sample_board).2 in
  let s2 := (resize_board (Collaborators0:=sample_world) (Some 100) None s1).2 in
  _img s2 = Some (74, 100)
  ∧ ∃ s3 img, reset_image s2 = (Ok tt, s3)
      ∧ imread (Collaborators:=sample_world) "board.png" = Some img
      ∧ _img s3 = Some img ∧ _src_img s3 = Some img
      ∧ _params s3 !! "TRANSFORM" = Some PNone
      ∧ _params s3 !! "BOARD_EDGES" = Some PNone
      ∧ _params s3 !! "BOARD_SIZE" = Some PNone
      ∧ (∀ key, key ≠ "TRANSFORM" → key ≠ "BOARD_EDGES" → key ≠ "BOARD_SIZE" →
           _params s3 !! key = _params s2 !! key)
      ∧ _res s3 = _res s2 ∧ _gen_board s3 = _gen_board s2
      ∧ _img_file s3 = _img_file s2 ∧ _src_img_file s3 = _src_img_file s2.
Proof.
  intros rect s1 s2. split; [vm_compute; reflexivity|].
  apply (reset_image_restores (Collaborators0:=sample_world)
           new_board sample_board s2 "board.png" true true false).
  - vm_compute. reflexivity.
  - eapply edited_transform with (rect := rect); [reflexivity|].
    eapply edited_resize with (max_size := Some 100) (scale := None);
      [reflexivity|].
    apply edited_refl.
Defined.


(** *** Where the stated behaviour fails *)


(** C6, as stated, fails: when a colour is given and nothing matches, the
    colour comes back with the absent stone. *)
Lemma find_stone_unmatched_keeps_colour :
  find_stone (Collaborators0:=sample_world) sample_board
    None (Some (9, 9)) None (Some "W")
  = Ok (None, Some "W")
  ∧ (None : option stone, Some "W") ≠ (None, None).
Proof. split; [vm_compute; reflexivity|discriminate]. Qed.

(** * Further properties *)

(** ** Hit testing on axis-parallel edges *)

Lemma is_on_vertical (x0 y0 y1 cx cy : Z) :
  y0 ≠ y1 →
  is_on (x0, y0) (x0, y1) (cx, cy) = true ↔
    cx = x0 ∧ Z.min y0 y1 ≤ cy ≤ Z.max y0 y1.
Proof.
  intros Hy. rewrite is_on_spec. cbn [fst snd]. split.
  - intros (Hcol & _ & Hin). split; [|by apply Hin].
    replace ((x0 - x0) * (cy - y0)) with 0 in Hcol by lia.
    symmetry in Hcol. apply Z.mul_eq_0 in Hcol. lia.
  - intros [-> Hin]. split; [lia|]. split; [done|]. by intros _.
Qed.

Lemma is_on_horizontal (x0 x1 y0 cx cy : Z) :
  x0 ≠ x1 →
  is_on (x0, y0) (x1, y0) (cx, cy) = true ↔
    cy = y0 ∧ Z.min x0 x1 ≤ cx ≤ Z.max x0 x1.
Proof.
  intros Hx. rewrite is_on_spec. cbn [fst snd]. split.
  - intros (Hcol & Hin & _). split; [|by apply Hin].
    replace ((cx - x0) * (y0 - y0)) with 0 in Hcol by lia.
    apply Z.mul_eq_0 in Hcol. lia.
  - intros [-> Hin]. split; [lia|]. split; [by intros _|done].
Qed.

Lemma is_on_w_vertical (x0 y0 y1 x y delta : Z) :
  y0 ≠ y1 →
  is_on_w (x0, y0) (x0, y1) (x, y) delta = true ↔
    1 ≤ delta
    ∧ x0 - 3 * delta + 2 ≤ x ≤ x0 + 1
    ∧ Z.min y0 y1 - 3 * delta + 2 ≤ y ≤ Z.max y0 y1 + 1.
Proof.
  intros Hy. rewrite is_on_w_spec. cbn [fst snd]. split.
  - intros (i & j & Hi & Hj & Hon). apply is_on_vertical in Hon; lia.
  - intros (Hd & Hx & Hyr).
    exists (x0 - x + 1), (Z.max (Z.min y0 y1) (y - 1) - y + 1).
    split; [lia|]. split; [lia|]. apply is_on_vertical; lia.
Qed.

Lemma is_on_w_horizontal (x0 x1 y0 x y delta : Z) :
  x0 ≠ x1 →
  is_on_w (x0, y0) (x1, y0) (x, y) delta = true ↔
    1 ≤ delta
    ∧ y0 - 3 * delta + 2 ≤ y ≤ y0 + 1
    ∧ Z.min x0 x1 - 3 * delta + 2 ≤ x ≤ Z.max x0 x1 + 1.
Proof.
  intros Hx. rewrite is_on_w_spec. cbn [fst snd]. split.
  - intros (i & j & Hi & Hj & Hon). apply is_on_horizontal in Hon; lia.
  - intros (Hd & Hyr & Hxr).
    exists (Z.max (Z.min x0 x1) (x - 1) - x + 1), (y0 - y + 1).
    split; [lia|]. split; [lia|]. apply is_on_horizontal; lia.
Qed.

(** X1: for a segment whose endpoints coincide, [is_on] accepts every
    point on the horizontal line through them, not only the point
    itself. *)
Theorem is_on_degenerate (a c : point) :
  is_on a a c = true ↔ c.2 = a.2.
Proof. rewrite is_on_spec. split; [intros (_ & _ & Hin)|intros ->]; lia. Qed.

(** X2: for a vertical or a horizontal edge of positive length, the
    windowed test accepts exactly the points of a window that is not
    centred on the edge: up to [3*delta - 2] pixels before it (left of or
    above it) and only one pixel after it, and the same along the edge
    beyond its ends. *)
Theorem is_on_w_axis_window (x0 y0 x1 y1 x y delta : Z) :
  (y0 ≠ y1 →
     is_on_w (x0, y0) (x0, y1) (x, y) delta = true ↔
       1 ≤ delta
       ∧ x0 - 3 * delta + 2 ≤ x ≤ x0 + 1
       ∧ Z.min y0 y1 - 3 * delta + 2 ≤ y ≤ Z.max y0 y1 + 1)
  ∧ (x0 ≠ x1 →
       is_on_w (x0, y0) (x1, y0) (x, y) delta = true ↔
         1 ≤ delta
         ∧ y0 - 3 * delta + 2 ≤ y ≤ y0 + 1
         ∧ Z.min x0 x1 - 3 * delta + 2 ≤ x ≤ Z.max x0 x1 + 1).
Proof. split; [apply is_on_w_vertical|apply is_on_w_horizontal]. Qed.

(** X3: with a tolerance of zero or less the windowed test accepts no
    point, not even one on the segment. *)
Theorem is_on_w_no_window (a b c : point) (delta : Z) :
  delta ≤ 0 → is_on_w a b c delta = false.
Proof.
  intros Hd. apply not_true_is_false. rewrite is_on_w_spec.
  intros (i & j & Hi & _). lia.
Qed.

Lemma is_on_w_no_window_witness :
  0 ≤ 0 ∧ is_on (0, 0) (10, 0) (4, 0) = true
  ∧ is_on_w (0, 0) (10, 0) (4, 0) 0 = false.
Proof.
  split; [lia|]. split; [reflexivity|].
  apply (is_on_w_no_window (0, 0) (10, 0) (4, 0) 0). lia.
Defined.

(** ** The image mask under pointer events *)

Lemma obind_Ok {A B} (m : outcome A) (k : A → outcome B) (b : B) :
  obind m k = Ok b → ∃ a, m = Ok a ∧ k a = Ok b.
Proof. destruct m as [a|e]; [eauto|done]. Qed.

Lemma draw_mask_shading_frame (m m' : ImageMask) :
  draw_mask_shading m = Ok m' → ∃ area, m' = set_mask_area area m.
Proof.
  unfold draw_mask_shading. intros Hrun.
  do 4 (apply obind_Ok in Hrun as (? & _ & Hrun)).
  injection Hrun as <-. eauto.
Qed.

Section ImageMaskEventProperties.
Context `{Canvas}.

Lemma get_mask_rect_side_range (m : ImageMask) (x y k : Z) :
  get_mask_rect_side m x y = Some k → 0 ≤ k ≤ 3.
Proof.
  unfold get_mask_rect_side. destruct (mask_rect m) as [r|]; [|done].
  destruct (rect_coords r) as [[[b0 b1] b2] b3].
  repeat case_match; intros [= <-]; lia.
Qed.

Lemma drag_callback_frame (m m' : ImageMask) (ex ey : Z) :
  drag_callback m ex ey = Ok m' →
  image_shape m' = image_shape m ∧ min_dist m' = min_dist m
  ∧ allow_change m' = allow_change m ∧ last_cursor m' = last_cursor m
  ∧ drag_side m' = match drag_side m with
                   | Some k => Some k
                   | None => get_mask_rect_side m ex ey
                   end
  ∧ (mask_rect m = None → mask_rect m' = None).
Proof.
  unfold drag_callback. intros Hrun.
  set (m1 := match drag_side m with
             | Some _ => m
             | None => set_drag_side (get_mask_rect_side m ex ey) m
             end) in *.
  assert (image_shape m1 = image_shape m ∧ min_dist m1 = min_dist m
          ∧ allow_change m1 = allow_change m ∧ last_cursor m1 = last_cursor m
          ∧ mask_rect m1 = mask_rect m
          ∧ drag_side m1 = match drag_side m with
                           | Some k => Some k
                           | None => get_mask_rect_side m ex ey
                           end) as (Hs & Hd & Ha & Hc & Hr & Hside).
  { subst m1. destruct (drag_side m) eqn:E; by rewrite ?E. }
  rewrite <- Hs, <- Hd, <- Ha, <- Hc, <- Hside, <- Hr. clear Hs Hd Ha Hc Hside Hr.
  destruct (drag_side m1) as [side|] eqn:Eside.
  - apply obind_Ok in Hrun as (msk & _ & Hrun).
    do 4 (apply obind_Ok in Hrun as (? & _ & Hrun)).
    apply draw_mask_shading_frame in Hrun as [area ->]. cbn.
    repeat split; try done. by intros ->.
  - injection Hrun as <-. by rewrite Eside.
Qed.

(** X5: the latched edge is always one of the four sides or none: a drag
    movement keeps an edge that is latched, latches one of the four when
    none is, and the release clears it. *)
Theorem drag_callback_keeps_latch (m m' : ImageMask) (ex ey : Z) :
  side_in_range m →
  drag_callback m ex ey = Ok m' →
  side_in_range m'
  ∧ (∀ k, drag_side m = Some k → drag_side m' = Some k)
  ∧ (drag_side m = None → drag_side m' = get_mask_rect_side m ex ey)
  ∧ drag_side (end_drag_callback m') = None.
Proof.
  intros Hrange Hrun.
  apply drag_callback_frame in Hrun as (_ & _ & _ & _ & Hside & _).
  unfold side_in_range in *.
  destruct (drag_side m) as [k|]; rewrite Hside.
  - split; [done|]. split; [by intros k' [= <-]|]. by split.
  - split; [|by split].
    destruct (get_mask_rect_side m ex ey) as [k|] eqn:E; [|done].
    by apply get_mask_rect_side_range in E.
Qed.

Lemma drag_callback_idle (m : ImageMask) (ex ey : Z) :
  drag_side m = None → mask_rect m = None → drag_callback m ex ey = Ok m.
Proof.
  intros Hside Hrect. unfold drag_callback, get_mask_rect_side.
  rewrite Hside, Hrect. cbn. by destruct m; cbn in *; subst.
Qed.

(** X6: a hidden mask with no edge latched ignores every drag: whatever
    movements and releases follow, it stays as it is. *)
Theorem hidden_mask_ignores_drags (m m' : ImageMask) :
  mask_rect m = None →
  drag_side m = None →
  dragged m m' →
  m' = m.
Proof.
  intros Hrect Hside Hdrag.
  induction Hdrag as [m | m m1 m2 ex ey Hrun _ IH | m m2 _ IH]; [done| |].
  - rewrite drag_callback_idle in Hrun by done. injection Hrun as <-. auto.
  - assert (end_drag_callback m = m) as Hsame
      by (destruct m; cbn in *; by subst).
    rewrite Hsame in IH. auto.
Qed.

Lemma dragged_frame (m m' : ImageMask) :
  dragged m m' → image_shape m' = image_shape m ∧ min_dist m' = min_dist m.
Proof.
  induction 1 as [m | m m1 m2 ex ey Hrun _ [IH1 IH2] | m m2 _ [IH1 IH2]];
    [done| |done].
  apply drag_callback_frame in Hrun as (Hs & Hd & _). by rewrite IH1, IH2.
Qed.

(** X7: [default_mask] after any drag movements gives the rectangle
    inset by [min_dist] from the borders of the image the mask was made
    for; it is a proper rectangle when the image is more than twice
    [min_dist] wide and high. *)
Theorem default_mask_after_drags (m m' : ImageMask) :
  dragged m m' →
  mask (default_mask m') =
    [min_dist m; min_dist m;
     (image_shape m).2 - min_dist m; (image_shape m).1 - min_dist m]
  ∧ mask (default_mask m') = mask (default_mask m)
  ∧ (2 * min_dist m < (image_shape m).2 →
     2 * min_dist m < (image_shape m).1 →
     min_dist m < (image_shape m).2 - min_dist m
     ∧ min_dist m < (image_shape m).1 - min_dist m).
Proof.
  intros Hdrag. apply dragged_frame in Hdrag as [Hs Hd].
  unfold default_mask. cbn. rewrite Hs, Hd. repeat split; lia.
Qed.

(** X4: on a shown mask whose rectangle has positive width and height,
    the edge hit by the pointer is the first, in the order left, top,
    right, bottom, whose one-pixel window holds the pointer; at a corner
    the pointer takes the earlier edge. *)
Theorem get_mask_rect_side_first_near (m : ImageMask) (x y : Z)
    (r : Z * Z * Z * Z) (b0 b1 b2 b3 : Z) :
  mask_rect m = Some r →
  rect_coords r = (b0, b1, b2, b3) →
  b0 ≠ b2 → b1 ≠ b3 →
  get_mask_rect_side m x y =
    if near_vertical b0 b1 b3 (canvasx x) (canvasy y) then Some 0
    else if near_horizontal b1 b0 b2 (canvasx x) (canvasy y) then Some 1
    else if near_vertical b2 b1 b3 (canvasx x) (canvasy y) then Some 2
    else if near_horizontal b3 b0 b2 (canvasx x) (canvasy y) then Some 3
    else None.
Proof.
  intros Hrect Hcoords Hx Hy. unfold get_mask_rect_side.
  rewrite Hrect, Hcoords.
  assert (∀ xe, is_on_w (xe, b1) (xe, b3) (canvasx x, canvasy y) 1
                = near_vertical xe b1 b3 (canvasx x) (canvasy y)) as HV.
  { intros xe. apply eq_true_iff_eq. rewrite is_on_w_vertical by done.
    unfold near_vertical. rewrite !andb_true_iff, !Z.leb_le. lia. }
  assert (∀ ye, is_on_w (b0, ye) (b2, ye) (canvasx x, canvasy y) 1
                = near_horizontal ye b0 b2 (canvasx x) (canvasy y)) as HH.
  { intros ye. apply eq_true_iff_eq. rewrite is_on_w_horizontal by done.
    unfold near_horizontal. rewrite !andb_true_iff, !Z.leb_le. lia. }
  by rewrite !HV, !HH.
Qed.

End ImageMaskEventProperties.

Lemma drag_callback_keeps_latch_witness :
  side_in_range shown_mask
  ∧ drag_callback (H:=plain_canvas) shown_mask 5 50 = Ok left_latched_mask
  ∧ drag_side left_latched_mask = Some 0
  ∧ 0 ≤ 0 ≤ 3.
Proof.
  assert (drag_callback (H:=plain_canvas) shown_mask 5 50
          = Ok left_latched_mask) as Hrun by reflexivity.
  destruct (drag_callback_keeps_latch (H:=plain_canvas)
              shown_mask left_latched_mask 5 50 I Hrun)
    as (Hrange & _ & Hlatch & _).
  split; [exact I|]. split; [reflexivity|]. split; [exact (Hlatch eq_refl)|].
  exact Hrange.
Defined.

Lemma hidden_mask_ignores_drags_witness :
  mask_rect hidden_mask = None ∧ drag_side hidden_mask = None
  ∧ drag_callback (H:=plain_canvas) hidden_mask 5 50 = Ok hidden_mask
  ∧ end_drag_callback hidden_mask = hidden_mask.
Proof.
  split; [reflexivity|]. split; [reflexivity|]. split; [reflexivity|].
  apply (hidden_mask_ignores_drags (H:=plain_canvas) hidden_mask
           (end_drag_callback hidden_mask) eq_refl eq_refl).
  apply (dragged_move hidden_mask hidden_mask _ 5 50); [reflexivity|].
  apply dragged_release, dragged_refl.
Defined.

Lemma default_mask_after_drags_witness :
  dragged (H:=plain_canvas) shown_mask crossed_mask
  ∧ mask crossed_mask = [200; 5; 95; 95]
  ∧ mask (default_mask crossed_mask) = [5; 5; 95; 95].
Proof.
  assert (dragged (H:=plain_canvas) shown_mask crossed_mask) as Hdrag.
  { apply (dragged_move shown_mask left_latched_mask _ 5 50); [reflexivity|].
    apply (dragged_move left_latched_mask crossed_mask _ 200 50);
      [reflexivity|].
    apply dragged_refl. }
  split; [exact Hdrag|]. split; [reflexivity|].
  exact (proj1 (default_mask_after_drags (H:=plain_canvas) _ _ Hdrag)).
Defined.

Lemma get_mask_rect_side_first_near_witness :
  get_mask_rect_side (H:=plain_canvas) shown_mask 5 5 = Some 0
  ∧ get_mask_rect_side (H:=plain_canvas) shown_mask 95 96 = Some 2
  ∧ get_mask_rect_side (H:=plain_canvas) shown_mask 50 50 = None.
Proof.
  split; [|split];
    rewrite (get_mask_rect_side_first_near (H:=plain_canvas) shown_mask _ _
               (5, 5, 95, 95) 5 5 95 95 eq_refl eq_refl) by lia;
    reflexivity.
Defined.

(** ** Random masks and the shading *)

Lemma int_of_float_half (w : Z) : int_of_float (inject_Z w / 2) = w ÷ 2.
Proof. unfold int_of_float. cbn. by rewrite Z.mul_1_r. Qed.

(** X8: a random mask is always a proper rectangle inside the image,
    left of and above the centre on one side and beyond it on the other;
    one can be drawn whenever the image is at least one pixel wide and
    high. *)
Theorem random_mask_proper (m : ImageMask) :
  (∀ m', random_mask m m' →
     ∃ l t r b, mask m' = [l; t; r; b]
       ∧ 0 ≤ l ≤ (image_shape m).2 ÷ 2 ∧ (image_shape m).2 ÷ 2 < r ≤ (image_shape m).2
       ∧ 0 ≤ t ≤ (image_shape m).1 ÷ 2 ∧ (image_shape m).1 ÷ 2 < b ≤ (image_shape m).1
       ∧ l < r ∧ t < b
       ∧ image_shape m' = image_shape m ∧ min_dist m' = min_dist m
       ∧ drag_side m' = drag_side m ∧ mask_rect m' = mask_rect m)
  ∧ (1 ≤ (image_shape m).2 → 1 ≤ (image_shape m).1 → ∃ m', random_mask m m')
  ∧ ((image_shape m).2 ≤ 0 ∨ (image_shape m).1 ≤ 0 → ∀ m', ¬ random_mask m m').
Proof.
  split; [|split].
  - intros m' Hdraw. destruct Hdraw as [l t r b cw ch Hl Ht Hr Hb].
    subst cw ch. rewrite int_of_float_half in *. unfold randint in *.
    exists l, t, r, b. cbn. repeat split; first [lia | done].
  - intros Hw Hh. eexists.
    apply (random_mask_drawn m 0 0 (image_shape m).2 (image_shape m).1);
      unfold randint; rewrite ?int_of_float_half;
      pose proof (Z.quot_pos (image_shape m).2 2);
      pose proof (Z.quot_pos (image_shape m).1 2);
      pose proof (Z.quot_lt (image_shape m).2 2);
      pose proof (Z.quot_lt (image_shape m).1 2); lia.
  - intros Hempty m' Hdraw. destruct Hdraw as [l t r b cw ch Hl Ht Hr Hb].
    subst cw ch. rewrite int_of_float_half in *. unfold randint in *.
    destruct Hempty as [Hw|Hh]; lia.
Qed.

Lemma covers_rectangle (a b c d x y : Z) :
  a ≤ c → b ≤ d →
  covers [a; b; c; b; c; d; a; d; a; b] x y ↔ a ≤ x ≤ c ∧ b ≤ y ≤ d.
Proof.
  intros Hac Hbd. unfold covers. cbn.
  rewrite !Exists_cons, !Exists_nil. lia.
Qed.

(** X9: for a mask rectangle inside the image, the four shading polygons
    cover every image point outside the rectangle and no point strictly
    inside it. *)
Theorem shading_covers_outside (m : ImageMask) (mx my wx wy : Z) :
  mask m = [mx; my; wx; wy] →
  0 ≤ mx ≤ wx → wx ≤ (image_shape m).2 →
  0 ≤ my ≤ wy → wy ≤ (image_shape m).1 →
  ∃ m' polys, draw_mask_shading m = Ok m'
    ∧ mask_area m' = Some polys ∧ mask m' = mask m
    ∧ length polys = 4%nat
    ∧ ∀ x y, 0 ≤ x ≤ (image_shape m).2 → 0 ≤ y ≤ (image_shape m).1 →
        (Exists (λ poly, covers poly x y) polys
         ∨ (mx ≤ x ≤ wx ∧ my ≤ y ≤ wy))
        ∧ (mx < x < wx → my < y < wy →
           ¬ Exists (λ poly, covers poly x y) polys).
Proof.
  intros Hmask Hx Hwx Hy Hwy. unfold draw_mask_shading. rewrite Hmask. cbn.
  eexists _, _. split; [reflexivity|]. cbn. split; [reflexivity|].
  split; [done|]. split; [reflexivity|].
  intros x y Hxr Hyr.
  rewrite !Exists_cons, Exists_nil, !covers_rectangle by lia. lia.
Qed.

Section MotionProperties.
Context `{Canvas}.

(** X10: a pointer movement never changes the mask or the latch; after
    it [last_cursor] names the edge under the pointer, or is [None] when
    there is none, and the cursor the canvas shows agrees with it when it
    did before. *)
Theorem motion_callback_tracks_edge (v : MaskView) (ex ey : Z) :
  ∃ v', motion_callback v ex ey = Ok v'
    ∧ mask (view_mask v') = mask (view_mask v)
    ∧ drag_side (view_mask v') = drag_side (view_mask v)
    ∧ mask_rect (view_mask v') = mask_rect (view_mask v)
    ∧ last_cursor (view_mask v')
      = cursor_of (get_mask_rect_side (view_mask v) ex ey)
    ∧ (canvas_cursor v = default "" (last_cursor (view_mask v)) →
       canvas_cursor v' = default "" (last_cursor (view_mask v'))).
Proof.
  assert (match mask_rect (view_mask v) with
          | None => Ok None
          | Some _ =>
              match get_mask_rect_side (view_mask v) ex ey with
              | None => Ok None
              | Some side =>
                  let! name := getitem CURSORS (Z.to_nat side) in
                  Ok (Some name)
              end
          end = Ok (cursor_of (get_mask_rect_side (view_mask v) ex ey)))
    as Hname.
  { destruct (get_mask_rect_side (view_mask v) ex ey) as [k|] eqn:Eside.
    - pose proof (get_mask_rect_side_range _ _ _ _ Eside) as Hk.
      destruct (mask_rect (view_mask v)) as [r|] eqn:Er.
      + assert (k = 0 ∨ k = 1 ∨ k = 2 ∨ k = 3) as [-> | [-> | [-> | ->]]]
          by lia; reflexivity.
      + unfold get_mask_rect_side in Eside. by rewrite Er in Eside.
    - by destruct (mask_rect (view_mask v)). }
  unfold motion_callback. rewrite Hname. cbn [obind].
  destruct (cursor_of (get_mask_rect_side (view_mask v) ex ey)) as [c|].
  - case_bool_decide as Hlast; eexists; (split; [reflexivity|]); cbn.
    + repeat split; done.
    + repeat split; first [done | by apply dec_stable in Hlast].
  - destruct (last_cursor (view_mask v)) as [c|] eqn:Ec;
      eexists; (split; [reflexivity|]); cbn; by rewrite ?Ec.
Qed.

End MotionProperties.

Lemma shading_covers_outside_witness :
  ∃ m' polys, draw_mask_shading shown_mask = Ok m'
    ∧ mask_area m' = Some polys
    ∧ Exists (λ poly, covers poly 2 50) polys
    ∧ ¬ Exists (λ poly, covers poly 50 50) polys.
Proof.
  destruct (shading_covers_outside shown_mask 5 5 95 95)
    as (m' & polys & Hrun & Harea & _ & _ & Hcover);
    [reflexivity | lia | cbn; lia | lia | cbn; lia |].
  exists m', polys. split; [exact Hrun|]. split; [exact Harea|].
  destruct (Hcover 2 50) as [[Hin | Hmask] _]; [cbn; lia | cbn; lia | | lia].
  split; [exact Hin|].
  destruct (Hcover 50 50) as [_ Hout]; [cbn; lia | cbn; lia |].
  apply Hout; lia.
Defined.

(** ** Frames and invariants of the board methods *)

Section FurtherFrames.
Context {image : Type} `{!Collaborators image} `{!Workshop image}.

Abbreviation board := (GrBoard image).

Lemma keeps_raise {A C} (f : board → C) (e : exn) : keeps f (raise (A:=A) e).
Proof. done. Qed.

Lemma keeps_params_getitem {C} (f : board → C) (key : string) :
  keeps f (params_getitem key).
Proof. intros s. unfold params_getitem. by destruct (_ !! _). Qed.

Lemma preserves_keeps {A C} (P : board → Prop) (f : board → C) (m : M A) :
  (∀ s s', f s' = f s → P s → P s') → keeps f m → preserves P m.
Proof. intros HP Hm s Hs. by apply (HP s), Hs. Qed.

Lemma preserves_bind {A B} (P : board → Prop) (m : M A) (k : A → M B) :
  preserves P m → (∀ a, preserves P (k a)) → preserves P (m ≫= k).
Proof.
  intros Hm Hk s Hs. unfold mbind, M_bind, bind.
  specialize (Hm s Hs). destruct (m s) as [[a|e] s1]; cbn in *; [|done].
  by apply Hk.
Qed.

Lemma preserves_modify (P : board → Prop) (g : board → board) :
  (∀ s, P s → P (g s)) → preserves P (modify g).
Proof. intros Hg s. apply Hg. Qed.

Lemma preserves_pure {A} (P : board → Prop) (m : M A) :
  (∀ s, (m s).2 = s) → preserves P m.
Proof. intros Hm s Hs. by rewrite Hm. Qed.

End FurtherFrames.

(** Walks a method built from the monad's operations and shows that it
    leaves a field alone. *)
Ltac keeps_walk :=
  repeat first
    [ apply keeps_ret | apply keeps_lift | apply keeps_gets | apply keeps_raise
    | apply keeps_res_getitem | apply keeps_params_getitem
    | by apply keeps_modify
    | apply keeps_bind; [|intros ?]
    | match goal with
      | |- keeps _ (match ?x with _ => _ end) => destruct x
      | |- keeps _ (if ?x then _ else _) => destruct x
      end ].

(** Turns a goal about one run of a method into the frame property of the
    method. *)
Ltac use_keeps :=
  match goal with
  | |- ?f (snd (?m ?s)) = ?f ?s => generalize s; change (keeps f m)
  end.

Section FurtherInvariants.
Context {image : Type} `{!Collaborators image} `{!Workshop image}.

Abbreviation board := (GrBoard image).

Lemma detect_edges_run (s : board) :
  detect_edges s =
    match _img s, _gen_board s with
    | Some img, false =>
        (Ok (detect_board img (_params s)).1,
         set_params
           (<["BOARD_SIZE" := (detect_board img (_params s)).1.2]>
              (<["BOARD_EDGES" := (detect_board img (_params s)).1.1]>
                 (detect_board img (_params s)).2)) s)
    | _, _ => (Ok (PNone, PNone), s)
    end.
Proof.
  unfold detect_edges. destruct (_img s) as [img|]; [|done].
  destruct (_gen_board s); [done|].
  by destruct (detect_board img (_params s)) as [[edges size] params].
Qed.

Lemma edit_step_src_img (s s' : board) :
  edit_step s s' → is_Some (_src_img s) → _src_img s' = _src_img s.
Proof.
  intros Hstep Hsrc.
  destruct Hstep as
    [s o s' Hrun | s rect o s' Hrun | s ms sc o s' Hrun | s o s' Hrun
    | s shape o s' Hrun | s p o s' Hrun | s o s' Hrun | s im o s' Hrun
    | s fn ms o s' Hrun | s msk o s' Hrun | s edges o s' Hrun
    | s size o s' Hrun | s rect o s' Hrun];
    apply (f_equal snd) in Hrun; cbn [snd] in Hrun; subst s'.
  - apply keeps_src_img_process.
  - apply keeps_src_img_transform.
  - apply keeps_src_img_resize.
  - clear Hsrc. use_keeps. unfold reset_image, params_setitem. keeps_walk.
  - clear Hsrc. use_keeps. unfold generate. keeps_walk.
  - clear Hsrc. use_keeps. unfold params_setter. keeps_walk.
  - rewrite detect_edges_run. by destruct (_img s), (_gen_board s).
  - unfold image_setter, mbind, M_bind, bind, modify, gets, ret. cbn.
    destruct Hsrc as [src Hsrc]. by rewrite Hsrc.
  - clear Hsrc. use_keeps. unfold save_image. keeps_walk.
  - clear Hsrc. use_keeps. unfold param_area_mask_setter, params_setitem.
    keeps_walk.
  - clear Hsrc. use_keeps. unfold param_board_edges_setter, params_setitem.
    keeps_walk.
  - clear Hsrc. use_keeps. unfold param_board_size_setter, params_setitem.
    keeps_walk.
  - clear Hsrc. use_keeps. unfold param_transform_rect_setter, params_setitem.
    keeps_walk.
Qed.

(** X18: once a source image is stored, no method other than
    [load_image] changes it, so after any number of such calls
    [reset_image] brings back that image. *)
Theorem source_image_kept (s s' : board) :
  is_Some (_src_img s) →
  edits s s' →
  _src_img s' = _src_img s
  ∧ ∃ s'', reset_image s' = (Ok tt, s'')
      ∧ _img s'' = _src_img s ∧ _src_img s'' = _src_img s.
Proof.
  intros Hsrc Hedits.
  assert (_src_img s' = _src_img s) as Hkept.
  { induction Hedits as [s | s s1 s2 Hstep _ IH]; [done|].
    pose proof (edit_step_src_img _ _ Hstep Hsrc) as Hone.
    rewrite IH by by rewrite Hone. done. }
  split; [done|]. eexists. split; [reflexivity|]. by cbn.
Qed.

End FurtherInvariants.

Lemma source_image_kept_witness :
  is_Some (_src_img sample_board)
  ∧ edits (Collaborators0:=sample_world) (Workshop0:=sample_workshop)
      sample_board regenerated_board
  ∧ _img regenerated_board = Some (500, 500)
  ∧ ∃ s'', reset_image regenerated_board = (Ok tt, s'')
      ∧ _img s'' = Some (384, 512).
Proof.
  assert (edits (Collaborators0:=sample_world) (Workshop0:=sample_workshop)
            sample_board regenerated_board) as Hedits.
  { eapply edits_step; [|apply edits_refl].
    apply (step_generate sample_board [500; 500] (Ok tt)). reflexivity. }
  split; [by eexists|]. split; [exact Hedits|]. split; [reflexivity|].
  destruct (source_image_kept (Collaborators0:=sample_world)
              (Workshop0:=sample_workshop) sample_board regenerated_board)
    as (_ & s'' & Hrun & Himg & _); [by eexists | exact Hedits |].
  exists s''. split; [exact Hrun|]. exact Himg.
Defined.

Section ListsPresent.
Context {image : Type} `{!Collaborators image} `{!Workshop image}.

Abbreviation board := (GrBoard image).

Lemma lists_present_same_res (s s' : board) :
  _res s' = _res s → lists_present s → lists_present s'.
Proof. unfold lists_present. by intros ->. Qed.

Lemma lists_present_none (s : board) : _res s = None → lists_present s.
Proof. intros Hres r. by rewrite Hres. Qed.

Lemma preserves_keeps_res {A} (m : M (image:=image) A) :
  keeps _res m → preserves lists_present m.
Proof. apply preserves_keeps, lists_present_same_res. Qed.

Lemma preserves_process : preserves lists_present process.
Proof.
  intros s _ r. rewrite process_run.
  destruct (_img s) as [img|]; [|done].
  destruct (_gen_board s); [done|]. cbn.
  destruct (process_img img (_params s)).1 as [r0|]; [|done].
  intros [= <-]. cbn. eauto.
Qed.

Lemma preserves_res_update (f : result image → result image) :
  (∀ r, is_Some (GR_STONES_B r) ∧ is_Some (GR_STONES_W r) →
        is_Some (GR_STONES_B (f r)) ∧ is_Some (GR_STONES_W (f r))) →
  preserves lists_present (res_update f).
Proof.
  intros Hf s Hs r. unfold res_update, modify. cbn.
  destruct (_res s) as [r0|] eqn:Er; [|done]. cbn. intros [= <-].
  by apply Hf, Hs.
Qed.

Lemma keeps_res_transform (rect : pvalue) :
  keeps _res (transform_image rect).
Proof. unfold transform_image, params_setitem. keeps_walk. Qed.

Lemma preserves_resize_board (max_size : option Z) (scale : option (float * float)) :
  preserves lists_present (resize_board max_size scale).
Proof.
  unfold resize_board.
  apply preserves_bind; [by apply preserves_pure|]. intros img.
  apply preserves_bind; [by apply preserves_pure|]. intros [img' sc].
  apply preserves_bind;
    [apply preserves_keeps_res; by apply keeps_modify|]. intros _.
  apply preserves_bind; [by apply preserves_pure|]. intros res.
  destruct (is_none res); [by apply preserves_pure|].
  assert (∀ A (g : result image → A), preserves lists_present (res_getitem g))
    as Hget.
  { intros A g. apply preserves_pure. intros s. unfold res_getitem.
    by destruct (_res s). }
  repeat first
    [ apply preserves_res_update; intros r [HB HW]; cbn; by eauto
    | apply preserves_bind;
      [first [apply Hget | by apply preserves_pure
             | apply preserves_res_update; intros r [HB HW]; cbn; by eauto]|];
      intros ? ].
Qed.

Lemma preserves_load_image (filename : string) (f_with_params f_process : bool) :
  preserves lists_present (load_image filename f_with_params f_process).
Proof.
  unfold load_image. destruct (imread filename) as [img|];
    [|by apply preserves_pure].
  do 5 (apply preserves_bind;
        [apply preserves_keeps_res; by apply keeps_modify|]; intros _).
  apply preserves_bind.
  { apply preserves_modify. intros s _. by apply lists_present_none. }
  intros _. apply preserves_bind.
  { apply preserves_keeps_res. unfold load_params. keeps_walk. }
  intros loaded. apply preserves_bind; [by apply preserves_pure|].
  intros has. apply preserves_bind.
  { apply preserves_keeps_res. destruct has; [|apply keeps_ret].
    apply keeps_bind; [apply keeps_params_getitem|].
    intros t. apply keeps_res_transform. }
  intros _. apply preserves_bind; [|intros; by apply preserves_pure].
  destruct f_process; [apply preserves_process|by apply preserves_pure].
Qed.

Lemma edit_step_lists_present (s s' : board) :
  edit_step s s' → lists_present s → lists_present s'.
Proof.
  intros Hstep Hs.
  destruct Hstep as
    [s o s' Hrun | s rect o s' Hrun | s ms sc o s' Hrun | s o s' Hrun
    | s shape o s' Hrun | s p o s' Hrun | s o s' Hrun | s im o s' Hrun
    | s fn ms o s' Hrun | s msk o s' Hrun | s edges o s' Hrun
    | s size o s' Hrun | s rect o s' Hrun];
    apply (f_equal snd) in Hrun; cbn [snd] in Hrun; subst s'.
  - by apply preserves_process.
  - by apply (preserves_keeps_res _ (keeps_res_transform rect)).
  - by apply preserves_resize_board.
  - revert s Hs. apply preserves_keeps_res.
    unfold reset_image, params_setitem. keeps_walk.
  - revert s Hs. apply preserves_keeps_res. unfold generate. keeps_walk.
  - revert s Hs. apply preserves_keeps_res. unfold params_setter. keeps_walk.
  - apply (lists_present_same_res s); [|done]. rewrite detect_edges_run.
    by destruct (_img s), (_gen_board s).
  - revert s Hs. apply preserves_keeps_res. unfold image_setter. keeps_walk.
  - revert s Hs. apply preserves_keeps_res. unfold save_image. keeps_walk.
  - revert s Hs. apply preserves_keeps_res.
    unfold param_area_mask_setter, params_setitem. keeps_walk.
  - revert s Hs. apply preserves_keeps_res.
    unfold param_board_edges_setter, params_setitem. keeps_walk.
  - revert s Hs. apply preserves_keeps_res.
    unfold param_board_size_setter, params_setitem. keeps_walk.
  - revert s Hs. apply preserves_keeps_res.
    unfold param_transform_rect_setter, params_setitem. keeps_walk.
Qed.

Lemma reachable_present (s : board) : reachable s → lists_present s.
Proof.
  induction 1 as [params | s s' _ IH Hstep | s fn wp pr o s' _ IH Hrun].
  - by apply lists_present_none.
  - by apply (edit_step_lists_present s).
  - apply (f_equal snd) in Hrun. cbn [snd] in Hrun. subst s'.
    by apply preserves_load_image.
Qed.

(** X17: on every board that method calls can produce from a new
    object, a result has both stone lists; so with a result, exporting
    to a named file succeeds whenever the SGF library accepts the board
    size and the moves and the file can be written, and a resize
    succeeds whenever the image resize does and every stone scales. *)
Theorem reachable_boards_have_lists (s : board) :
  reachable s →
  lists_present s
  ∧ (is_Some (_res s) → ∀ name,
       Sgf_game_check (board_size s) = Ok tt →
       Forall (λ m, set_move_check (board_size s) m.1 m.2 = Ok tt)
         (moves_of s) →
       write_bytes name = Ok tt →
       save_sgf s (Some name)
       = Ok (name, mkSgf_game (board_size s) (moves_of s)))
  ∧ (∀ max_size img img' sx sy,
       _img s = Some img → resize2 img max_size = Ok (img', (sx, sy)) →
       Forall (scalable sx sy)
         (default [] (black_stones s) ++ default [] (white_stones s)) →
       ∃ s', resize_board max_size None s = (Ok tt, s')
             ∧ lists_present s' ∧ _img s' = Some img').
Proof.
  intros Hreach. pose proof (reachable_present s Hreach) as Hpresent.
  split; [done|]. split.
  - intros [r Hres] name. destruct (Hpresent r Hres) as [[bs Hb] [ws Hw]].
    unfold moves_of, black_stones, white_stones.
    rewrite (save_sgf_run s r bs ws (Some name) Hres Hb Hw).
    unfold board_size. rewrite Hres, Hb, Hw. cbn.
    intros -> Hmoves ->. apply accepted_Forall in Hmoves.
    by rewrite Hmoves.
  - intros ms img img' sx sy Himg Hresize.
    unfold black_stones, white_stones.
    rewrite resize_board_run, Himg, Hresize. cbn zeta.
    destruct (_res s) as [r|] eqn:Hres.
    + destruct (Hpresent r Hres) as [[bs Hb] [ws Hw]]. rewrite Hb, Hw. cbn.
      intros [Hbs Hws]%Forall_app.
      destruct (scalable_scaled _ _ _ Hbs) as [bs1 Hbs1].
      destruct (scalable_scaled _ _ _ Hws) as [ws1 Hws1].
      apply resize_stones_scaled in Hbs1, Hws1. rewrite Hbs1, Hws1. cbn.
      eexists. split; [reflexivity|]. split; [|done].
      intros r'. cbn. intros [= <-]. cbn. eauto.
    + intros _. eexists. split; [reflexivity|]. split; [|done].
      intros r'. cbn. by rewrite Hres.
Qed.

End ListsPresent.

Lemma reachable_boards_have_lists_witness :
  reachable (Collaborators0:=sample_world) (Workshop0:=sample_workshop)
    sample_board
  ∧ save_sgf (Collaborators0:=sample_world) sample_board (Some "game.sgf")
    = Ok ("game.sgf", mkSgf_game (PNum 19) [("b", (3, 3)); ("b", (0, 0))]).
Proof.
  assert (reachable (Collaborators0:=sample_world) (Workshop0:=sample_workshop)
            sample_board) as Hreach.
  { apply (reachable_load new_board "board.png" true true (Ok false));
      [apply reachable_new|reflexivity]. }
  split; [exact Hreach|].
  destruct (reachable_boards_have_lists (Collaborators0:=sample_world)
              (Workshop0:=sample_workshop) sample_board Hreach)
    as (_ & Hexport & _).
  apply (Hexport ltac:(by eexists) "game.sgf");
    [reflexivity| |reflexivity].
  constructor; [reflexivity|]. constructor; [reflexivity|]. constructor.
Defined.

(** ** Edge detection, forced geometry and saving *)

Section FurtherMethods.
Context {image : Type} `{!Collaborators image} `{!Workshop image}.

Abbreviation board := (GrBoard image).

(** X11: [detect_edges] does nothing and returns [(None, None)] on a
    board without image or with a generated one; otherwise it returns
    the detector's edges and size and stores them under [BOARD_EDGES] and
    [BOARD_SIZE], leaving image and result alone, so that while there is
    no result [board_edges] and [board_size] report them and the next
    [process] hands them to the detector. *)
Theorem detect_edges_seeds (s : board) :
  (_img s = None ∨ _gen_board s = true →
     detect_edges s = (Ok (PNone, PNone), s))
  ∧ (∀ img, _img s = Some img → _gen_board s = false →
       ∃ edges size s',
         detect_edges s = (Ok (edges, size), s')
         ∧ (detect_board img (_params s)).1 = (edges, size)
         ∧ _params s' !! "BOARD_EDGES" = Some edges
         ∧ _params s' !! "BOARD_SIZE" = Some size
         ∧ (∀ key, key ≠ "BOARD_EDGES" → key ≠ "BOARD_SIZE" →
              _params s' !! key = (detect_board img (_params s)).2 !! key)
         ∧ set_params (_params s) s' = s
         ∧ (_res s = None →
              board_edges s' = inl edges
              ∧ board_size s' = match size with
                                | PNone => PNum DEF_BOARD_SIZE
                                | _ => size
                                end)
         ∧ _res (process s').2
           = normalized <$> (process_img img (_params s')).1).
Proof.
  split.
  - intros Hskip. rewrite detect_edges_run.
    destruct Hskip as [-> | Hgen]; [done|]. rewrite Hgen.
    by destruct (_img s).
  - intros img Himg Hgen. rewrite detect_edges_run, Himg, Hgen.
    destruct (detect_board img (_params s)) as [[edges size] params] eqn:Edet.
    eexists edges, size, _. split; [reflexivity|]. cbn.
    split; [done|].
    split; [by rewrite lookup_insert_ne, lookup_insert_eq|].
    split; [by rewrite lookup_insert_eq|].
    split; [intros key H1 H2; by rewrite !lookup_insert_ne|].
    split; [by destruct s|].
    split.
    + intros Hres. unfold board_edges, board_size, params_get. cbn.
      rewrite Hres. split.
      * by rewrite lookup_insert_ne, lookup_insert_eq.
      * rewrite lookup_insert_eq. by destruct size.
    + rewrite process_run. cbn. by rewrite Himg, Hgen.
Qed.


(** X13: a flat list of four coordinates, as the image mask holds it,
    set as area mask or as board edges reads back as two rows of two;
    each setter leaves every other parameter alone, [None] reads back as
    [None], and a list of any other length raises and changes nothing. *)
Theorem param_rectangles_round_trip (s : board) (l t r b : Z) :
  (∃ s', param_area_mask_setter (Some [l; t; r; b]) s = (Ok tt, s')
     ∧ param_area_mask s'
       = Ok (PList [PList [PNum l; PNum t]; PList [PNum r; PNum b]])
     ∧ (∀ key, key ≠ "AREA_MASK" → _params s' !! key = _params s !! key)
     ∧ param_board_edges s' = param_board_edges s
     ∧ set_params (_params s) s' = s)
  ∧ (∃ s', param_board_edges_setter (Some [l; t; r; b]) s = (Ok tt, s')
       ∧ param_board_edges s'
         = Ok (PList [PList [PNum l; PNum t]; PList [PNum r; PNum b]])
       ∧ (∀ key, key ≠ "BOARD_EDGES" → _params s' !! key = _params s !! key)
       ∧ param_area_mask s' = param_area_mask s)
  ∧ param_area_mask (param_area_mask_setter None s).2 = Ok PNone
  ∧ param_board_edges (param_board_edges_setter None s).2 = Ok PNone
  ∧ (∀ flat, length flat ≠ 4%nat →
       param_area_mask_setter (Some flat) s = (Raise ValueError, s)
       ∧ param_board_edges_setter (Some flat) s = (Raise ValueError, s)).
Proof.
  split; [|split; [|split; [|split]]].
  - eexists. split; [reflexivity|].
    unfold param_area_mask, param_board_edges, params_get. cbn.
    rewrite lookup_insert_eq, lookup_insert_ne by done.
    repeat split; try done; [|by destruct s].
    intros key Hkey. by rewrite lookup_insert_ne.
  - eexists. split; [reflexivity|].
    unfold param_area_mask, param_board_edges, params_get. cbn.
    rewrite lookup_insert_eq, lookup_insert_ne by done.
    repeat split; try done.
    intros key Hkey. by rewrite lookup_insert_ne.
  - unfold param_area_mask, params_get. cbn. by rewrite lookup_insert_eq.
  - unfold param_board_edges, params_get. cbn. by rewrite lookup_insert_eq.
  - intros flat Hlen.
    assert (reshape_2x2 flat = Raise ValueError) as Hshape.
    { by destruct flat as [|a [|b' [|c [|d [|e flat]]]]]. }
    unfold param_area_mask_setter, param_board_edges_setter,
      mbind, M_bind, bind, lift. by rewrite Hshape.
Qed.

(** X14: [save_image] raises "Image was not loaded" on a board without
    image; when resizing or writing raises, the board is as it was;
    when the image is written, the name becomes the image file and the
    generated flag is cleared while the image held is not resized, so a
    following [process] runs the detector on it. *)
Theorem save_image_effects (s : board) (filename : option string)
    (max_size : option Z) :
  (_img s = None →
     save_image filename max_size s
     = (Raise (Exception "Image was not loaded"), s))
  ∧ (∀ im, _img s = Some im →
       let name := match filename with
                   | None => _img_file s
                   | Some f => Some f
                   end in
       let sized := match max_size with
                    | None => Ok im
                    | Some n => resize im n
                    end in
       (∀ e, sized = Raise e →
          save_image filename max_size s = (Raise e, s))
       ∧ (∀ im' e, sized = Ok im' → imwrite (str_of name) im' = Raise e →
            save_image filename max_size s = (Raise e, s))
       ∧ (∀ im', sized = Ok im' → imwrite (str_of name) im' = Ok tt →
            ∃ s', save_image filename max_size s = (Ok tt, s')
              ∧ s' = set_gen_board false (set_img_file name s)
              ∧ _img s' = Some im
              ∧ _res (process s').2
                = normalized <$> (process_img im (_params s)).1)).
Proof.
  split.
  - intros Himg. unfold save_image, mbind, M_bind, bind, gets. by rewrite Himg.
  - intros im Himg name sized.
    unfold save_image, mbind, M_bind, bind, gets, lift, modify. rewrite Himg.
    fold name. cbn. fold sized. split; [|split].
    + by intros e ->.
    + by intros im' e -> ->.
    + intros im' -> ->. eexists. split; [reflexivity|]. split; [done|].
      split; [done|]. rewrite process_run. cbn. by rewrite Himg.
Qed.

End FurtherMethods.

(** ** Saving the parameters *)

Section SaveParamsBackup.
Context {image : Type} `{!Workshop image} {fs : Type} `{!Disk fs}.

(** X15: for a regular file [name] and [f_bak] set, [save_params] first
    moves the file to the name with suffix [.gpar.bak] and then writes
    the parameters: when both succeed the backup holds the old text,
    [name] the new one and no other file has changed; when the move
    raises nothing is written; when the writing raises the old file has
    already been moved away.  Without [f_bak] the file is written in
    place, and with neither a file name nor an image file
    [save_params] raises before it touches a file. *)
Theorem save_params_backup (s : GrBoard image) (d : fs)
    (name old bak : string) :
  replace_moves_text →
  write_stores_text →
  read_text d name = Some old →
  path_exists d name = Ok true →
  path_with_suffix name (BOARD_PARAM_EXT +:+ ".bak") = Ok bak →
  bak ≠ name →
  let text := dump_params (_params s) in
  (∀ d1 d2, path_replace d name bak = (Ok tt, d1) →
     write_text d1 name text = (Ok tt, d2) →
     save_params s d (Some name) true = (Ok name, d2)
     ∧ read_text d2 name = Some text
     ∧ read_text d2 bak = Some old
     ∧ ∀ k, k ≠ name → k ≠ bak → read_text d2 k = read_text d k)
  ∧ (∀ e d1, path_replace d name bak = (Raise e, d1) →
       save_params s d (Some name) true = (Raise e, d1))
  ∧ (∀ e d1 d2, path_replace d name bak = (Ok tt, d1) →
       write_text d1 name text = (Raise e, d2) →
       save_params s d (Some name) true = (Raise e, d2)
       ∧ read_text d1 name = None ∧ read_text d1 bak = Some old)
  ∧ (∀ d2, write_text d name text = (Ok tt, d2) →
       save_params s d (Some name) false = (Ok name, d2)
       ∧ read_text d2 name = Some text
       ∧ ∀ k, k ≠ name → read_text d2 k = read_text d k)
  ∧ (∀ f_bak, _img_file s = None →
       save_params s d None f_bak = (Raise TypeError, d)).
Proof.
  intros Hreplace Hwrite Hold Hexists Hbak Hne text.
  unfold save_params. rewrite Hexists, Hbak. fold text.
  split; [|split; [|split; [|split]]].
  - intros d1 d2 Hmove Hstore. rewrite Hmove, Hstore.
    destruct (Hreplace _ _ _ _ Hmove ltac:(done)) as (Hdst & Hsrc & Hrest).
    destruct (Hwrite _ _ _ _ Hstore) as (Hnew & Hothers).
    split; [done|]. split; [done|]. split.
    + by rewrite Hothers, Hdst.
    + intros k Hk1 Hk2. by rewrite Hothers, Hrest.
  - intros e d1 Hmove. by rewrite Hmove.
  - intros e d1 d2 Hmove Hstore. rewrite Hmove, Hstore.
    destruct (Hreplace _ _ _ _ Hmove ltac:(done)) as (Hdst & Hsrc & _).
    split; [done|]. split; [done|]. by rewrite Hdst.
  - intros d2 Hstore. rewrite Hstore.
    destruct (Hwrite _ _ _ _ Hstore) as (Hnew & Hothers). done.
  - intros f_bak Hfile. by rewrite Hfile.
Qed.

End SaveParamsBackup.

Lemma flat_disk_replace : replace_moves_text (Disk0:=flat_disk).
Proof.
  intros d src dst d'. cbn. destruct (d !! src) as [text|] eqn:Hsrc; [|done].
  intros [= <-] Hne. split; [by rewrite lookup_insert_eq|]. split.
  - by rewrite lookup_insert_ne, lookup_delete_eq.
  - intros k Hk1 Hk2. by rewrite lookup_insert_ne, lookup_delete_ne.
Qed.

Lemma flat_disk_write : write_stores_text (Disk0:=flat_disk).
Proof.
  intros d f text d'. cbn. destruct f as [|c f]; [done|].
  intros [= <-]. split; [by rewrite lookup_insert_eq|].
  intros k Hk. by rewrite lookup_insert_ne.
Qed.

Lemma save_params_backup_witness :
  let d : gmap string string := {["board.gpar" := "old text"]} in
  ∃ d2, save_params (Workshop0:=sample_workshop) (Disk0:=flat_disk)
          sample_board d (Some "board.gpar") true
        = (Ok "board.gpar", d2)
    ∧ d2 !! "board.gpar" = Some "{}"
    ∧ d2 !! "board.gpar.bak" = Some "old text".
Proof.
  intros d.
  destruct (save_params_backup (Workshop0:=sample_workshop) (Disk0:=flat_disk)
              sample_board d "board.gpar" "old text" "board.gpar.bak"
              flat_disk_replace flat_disk_write)
    as (Hsaved & _); [reflexivity|reflexivity|reflexivity|done|].
  destruct (Hsaved _ _ eq_refl eq_refl) as (Hrun & Hnew & Hbak & _).
  eexists. split; [exact Hrun|]. split; [exact Hnew|exact Hbak].
Defined.


(** ** Stones near a position *)

Section Nearby.
Context {image : Type} `{!Collaborators image} `{!Workshop image}.

Abbreviation board := (GrBoard image).

Lemma find_nearby_rows (p : stone) (d size : Z) (c : string)
    (sts : list stone) (acc : list (list item)) :
  foldl (find_nearby_round p
           (Z.max (GR_A p - d) 1) (Z.min (GR_A p + d) size + 1)
           (Z.max (GR_B p - d) 1) (Z.min (GR_B p + d) size + 1))
    (Ok acc) (coloured c sts)
  = Ok (acc ++ coloured c (filter (near p d size) sts)).
Proof.
  revert acc. induction sts as [|st sts IH]; intros acc.
  - cbn. by rewrite app_nil_r.
  - rewrite filter_cons. unfold coloured. rewrite fmap_cons. cbn [foldl].
    fold (coloured c sts).
    assert (find_nearby_round p
              (Z.max (GR_A p - d) 1) (Z.min (GR_A p + d) size + 1)
              (Z.max (GR_B p - d) 1) (Z.min (GR_B p + d) size + 1)
              (Ok acc) (stone_list st ++ [IStr c])
            = Ok (if decide (near p d size st)
                  then acc ++ [stone_list st ++ [IStr c]] else acc)) as ->.
    { unfold find_nearby_round, getitem, item_is, item_in_range. cbn.
      destruct (decide (near p d size st)) as [Hnear | Hfar];
        unfold near in *;
        destruct (Z.eqb_spec (GR_A st) (GR_A p));
        try destruct (Z.eqb_spec (GR_B st) (GR_B p)); cbn;
        repeat case_match; try done;
        repeat match goal with
               | H : (_ && _) = _ |- _ =>
                   first [apply andb_true_iff in H as [? ?]
                         | apply andb_false_iff in H as [?|?]]
               | H : (_ <=? _) = _ |- _ =>
                   first [apply Z.leb_le in H | apply Z.leb_gt in H]
               | H : (_ <? _) = _ |- _ =>
                   first [apply Z.ltb_lt in H | apply Z.ltb_ge in H]
               end; exfalso; lia. }
    destruct (decide (near p d size st)).
    + rewrite IH. unfold coloured. rewrite fmap_cons.
      by rewrite <- app_assoc.
    + apply IH.
Qed.

(** X16: [find_nearby] returns, in the order of [all_stones], the
    black and then the white stones that lie on another grid position
    than [p], at most [d] columns and rows away and on the board; so a
    stone at the position of [p] is never listed, [d <= 0] gives the
    empty list, and [p = None] gives [None]. *)
Theorem find_nearby_filter (s : board) (p : stone) (d size : Z) :
  num_of (board_size s) = Ok size →
  find_nearby s (Some p) d
  = Ok (Some (coloured "B" (filter (near p d size)
                              (default [] (black_stones s)))
              ++ coloured "W" (filter (near p d size)
                                 (default [] (white_stones s)))))
  ∧ (∀ r st c, find_nearby s (Some p) d = Ok (Some r) →
       stone_list st ++ [IStr c] ∈ r →
       stone_list st ++ [IStr c] ∈ all_stones s
       ∧ (GR_A st, GR_B st) ≠ (GR_A p, GR_B p))
  ∧ (d ≤ 0 → find_nearby s (Some p) d = Ok (Some []))
  ∧ find_nearby s None d = Ok None.
Proof.
  intros Hsize.
  assert (all_stones s = coloured "B" (default [] (black_stones s))
                         ++ coloured "W" (default [] (white_stones s)))
    as Hall.
  { unfold all_stones, coloured.
    destruct (black_stones s), (white_stones s); cbn;
      by rewrite ?app_nil_r. }
  assert (find_nearby s (Some p) d
          = Ok (Some (coloured "B" (filter (near p d size)
                                      (default [] (black_stones s)))
                      ++ coloured "W" (filter (near p d size)
                                         (default [] (white_stones s))))))
    as Hrun.
  { unfold find_nearby. rewrite Hsize. cbn [obind]. rewrite Hall, foldl_app.
    rewrite (find_nearby_rows p d size "B" _ []). cbn [app].
    by rewrite find_nearby_rows. }
  split; [exact Hrun|]. split; [|split; [|done]].
  - intros r st c Hr Hin. rewrite Hrun in Hr.
    injection Hr as <-. rewrite Hall.
    assert (∀ c' sts, stone_list st ++ [IStr c]
                      ∈ coloured c' (filter (near p d size) sts) →
              stone_list st ++ [IStr c] ∈ coloured c' sts
              ∧ (GR_A st, GR_B st) ≠ (GR_A p, GR_B p)) as Hcol.
    { intros c' sts Hmem. unfold coloured in *.
      apply list_elem_of_fmap in Hmem as (st' & Heq & Hmem).
      apply list_elem_of_filter in Hmem as [Hnear Hmem].
      split; [apply list_elem_of_fmap; by exists st'|].
      unfold stone_list in Heq. cbn in Heq.
      injection Heq as _ _ Ha Hb _ _.
      destruct Hnear as [Hpos _]. intros [= Ha' Hb']. lia. }
    apply elem_of_app in Hin as [Hin | Hin];
      destruct (Hcol _ _ Hin) as [Hmem Hpos];
      (split; [apply elem_of_app; auto | exact Hpos]).
  - intros Hd. rewrite Hrun.
    assert (∀ sts, filter (near p d size) sts = []) as Hnone.
    { intros sts. induction sts as [|st sts IH]; [done|].
      rewrite filter_cons, IH.
      destruct (decide (near p d size st)) as [Hnear|]; [|done].
      unfold near in Hnear. lia. }
    by rewrite !Hnone.
Qed.

End Nearby.

Lemma find_nearby_filter_witness :
  num_of (board_size (Collaborators0:=sample_world) played_board) = Ok 19
  ∧ find_nearby (Collaborators0:=sample_world)
      played_board (Some (mkStone 41 40 1 1 10)) 1
    = Ok (Some [[INum 60; INum 40; INum 2; INum 1; INum 10; IStr "B"]]).
Proof.
  split; [reflexivity|].
  destruct (find_nearby_filter (Collaborators0:=sample_world) played_board
              (mkStone 41 40 1 1 10) 1 19 eq_refl) as [Hrun _].
  rewrite Hrun. reflexivity.
Defined.

(** ** Loading, warping and constructing *)

Section Loading.
Context {image : Type} `{!Collaborators image} `{!Workshop image}.

Abbreviation board := (GrBoard image).

Lemma transform_image_run (s : board) (l : list pvalue) :
  length l = 4%nat →
  transform_image (PList l) s
  = match _img s with
    | Some i =>
        match four_point_transform i l with
        | Ok a =>
            (Ok tt,
             set_params (<["TRANSFORM" := PList l]> (_params s))
               (set_img (Some a) s))
        | Raise e => (Raise e, s)
        end
    | None => (Raise TypeError, s)
    end.
Proof.
  intros Hlen.
  unfold transform_image, py_len, mbind, M_bind, bind, lift, gets, modify,
    params_setitem.
  cbn. rewrite Hlen. change (Z.of_nat 4 =? 4) with true. cbn.
  destruct (_img s) as [i|]; [|done]. by destruct (four_point_transform i l).
Qed.

(** The board right after the fields of [load_image] are assigned. *)
Lemma load_image_run (s : board) (filename : string) (f_process : bool)
    (img : image) :
  imread filename = Some img →
  load_image filename false f_process s
  = ((match _params s !! "TRANSFORM" with
      | Some t => transform_image t
      | None => ret tt
      end;;
      (if f_process then process else ret tt);;
      ret false)
       (mkGrBoard (_params s) None (Some img) (Some filename) (Some img)
          (Some filename) false)).
Proof.
  intros Hread. unfold load_image. rewrite Hread.
  unfold mbind, M_bind, bind, modify, ret, gets, params_getitem. cbn.
  destruct (_params s !! "TRANSFORM") as [t|] eqn:Ht.
  - rewrite bool_decide_eq_true_2 by done. cbn. rewrite Ht. reflexivity.
  - rewrite bool_decide_eq_false_2 by (by intros [? ?]). reflexivity.
Qed.

(** X20: when the image is read but its parameter file fails to parse,
    [load_image] raises with the board half loaded: the new image is
    both image and source image, the former result is gone, the
    parameters are the former ones and no recognition has run. *)
Theorem load_image_params_unreadable (s : board) (filename : string)
    (f_process : bool) (img : image) (e : exn) :
  imread filename = Some img →
  is_file (with_suffix filename BOARD_PARAM_EXT) = true →
  json_load (with_suffix filename BOARD_PARAM_EXT) = Raise e →
  load_image filename true f_process s
  = (Raise e,
     mkGrBoard (_params s) None (Some img) (Some filename) (Some img)
       (Some filename) false)
  ∧ all_stones (load_image filename true f_process s).2 = [].
Proof.
  intros Hread Hfile Hload.
  assert (load_image filename true f_process s
          = (Raise e,
             mkGrBoard (_params s) None (Some img) (Some filename) (Some img)
               (Some filename) false)) as Hrun.
  { unfold load_image. rewrite Hread.
    unfold mbind, M_bind, bind, modify, ret, gets, load_params, lift. cbn.
    by rewrite Hfile, Hload. }
  split; [exact Hrun|]. by rewrite Hrun.
Qed.

(** X21: [load_image] applies a transform held in the parameters to the
    newly read image: the image is the warped one while the source image
    is the one read, recognition (when asked for) runs on the warped
    image, and [reset_image] gives back the one read; when the warp
    raises, the unwarped image stays loaded; with no transform held the
    image is the one read. *)
Theorem load_image_reapplies_transform (s : board) (filename : string)
    (img : image) :
  imread filename = Some img →
  (∀ l img', _params s !! "TRANSFORM" = Some (PList l) →
     length l = 4%nat → four_point_transform img l = Ok img' →
     (∃ s', load_image filename false false s = (Ok false, s')
        ∧ _img s' = Some img' ∧ _src_img s' = Some img
        ∧ _params s' = _params s ∧ _res s' = None
        ∧ _img (reset_image s').2 = Some img)
     ∧ _res (load_image filename false true s).2
       = normalized <$> (process_img img' (_params s)).1)
  ∧ (∀ l e f_process, _params s !! "TRANSFORM" = Some (PList l) →
       length l = 4%nat → four_point_transform img l = Raise e →
       load_image filename false f_process s
       = (Raise e,
          mkGrBoard (_params s) None (Some img) (Some filename) (Some img)
            (Some filename) false))
  ∧ (_params s !! "TRANSFORM" = None ∨ _params s !! "TRANSFORM" = Some PNone →
       load_image filename false false s
       = (Ok false,
          mkGrBoard (_params s) None (Some img) (Some filename) (Some img)
            (Some filename) false)).
Proof.
  intros Hread. split; [|split].
  - intros l img' Ht Hlen Hwarp.
    assert (<["TRANSFORM" := PList l]> (_params s) = _params s) as Hsame
      by by apply insert_id.
    split.
    + rewrite (load_image_run _ _ _ _ Hread), Ht. eexists.
      unfold mbind, M_bind, bind, ret.
      rewrite (transform_image_run _ _ Hlen). cbn. rewrite Hwarp.
      split; [reflexivity|]. cbn. by rewrite Hsame.
    + rewrite (load_image_run _ _ _ _ Hread), Ht.
      unfold mbind, M_bind, bind, ret.
      rewrite (transform_image_run _ _ Hlen). cbn. rewrite Hwarp.
      rewrite process_run. cbn. by rewrite Hsame.
  - intros l e f_process Ht Hlen Hwarp.
    rewrite (load_image_run _ _ _ _ Hread), Ht.
    unfold mbind, M_bind, bind, ret.
    rewrite (transform_image_run _ _ Hlen). cbn. by rewrite Hwarp.
  - intros [Ht | Ht]; by rewrite (load_image_run _ _ _ _ Hread), Ht.
Qed.

(** X22: [transform_image] ignores [None] and any list that does not
    have four entries, raises on a value without length, and when the
    warp raises leaves the board as it was; a second transform warps the
    already warped image while only its own rectangle is kept under
    [TRANSFORM]. *)
Theorem transform_image_twice (s : board) :
  transform_image PNone s = (Ok tt, s)
  ∧ (∀ l, length l ≠ 4%nat → transform_image (PList l) s = (Ok tt, s))
  ∧ (∀ z, transform_image (PNum z) s = (Raise TypeError, s))
  ∧ (∀ l img e, length l = 4%nat → _img s = Some img →
       four_point_transform img l = Raise e →
       transform_image (PList l) s = (Raise e, s))
  ∧ (∀ l1 l2 img img1 img2,
       length l1 = 4%nat → length l2 = 4%nat → _img s = Some img →
       four_point_transform img l1 = Ok img1 →
       four_point_transform img1 l2 = Ok img2 →
       (transform_image (PList l1);; transform_image (PList l2)) s
       = (Ok tt,
          set_params (<["TRANSFORM" := PList l2]> (_params s))
            (set_img (Some img2) s))).
Proof.
  split; [done|]. split; [|split; [done|split]].
  - intros l Hlen. unfold transform_image, py_len, mbind, M_bind, bind, lift.
    cbn. destruct (Z.eqb_spec (Z.of_nat (length l)) 4); [lia|done].
  - intros l img e Hlen Himg Hwarp.
    by rewrite (transform_image_run _ _ Hlen), Himg, Hwarp.
  - intros l1 l2 img img1 img2 Hl1 Hl2 Himg Hw1 Hw2.
    unfold mbind, M_bind, bind.
    rewrite (transform_image_run _ _ Hl1), Himg, Hw1.
    rewrite (transform_image_run _ _ Hl2). cbn. rewrite Hw2.
    unfold set_params, set_img. cbn. by rewrite insert_insert_eq.
Qed.

(** X19: a board constructed without a file name (or with an empty one)
    holds a generated image of the given or the default shape and
    nothing else: recognition and edge detection skip it, there are no
    stones, [reset_image] takes its image away, and the first image
    assigned to it becomes the source image; constructing with a file
    that cannot be read raises and gives no board. *)
Theorem construct_generated (params : gmap string pvalue)
    (board_shape : option (list Z)) :
  (∃ s, construct params None board_shape = Ok s
     ∧ construct params (Some EmptyString) board_shape = Ok s
     ∧ s = mkGrBoard params None
             (Some (generate_board (default DEF_IMG_SIZE board_shape) None))
             None None None true
     ∧ process s = (Ok tt, s)
     ∧ detect_edges s = (Ok (PNone, PNone), s)
     ∧ all_stones s = []
     ∧ _img (reset_image s).2 = None
     ∧ (∀ im, _src_img (image_setter im s).2 = Some im
              ∧ _img (reset_image (image_setter im s).2).2 = Some im))
  ∧ (∀ c f, imread (String c f) = None →
       construct params (Some (String c f)) board_shape
       = Raise (Exception ("Image file not found " +:+ String c f))).
Proof.
  split.
  - eexists. split; [reflexivity|]. split; [reflexivity|].
    split; [reflexivity|]. repeat split.
  - intros c f Hread. unfold construct, load_image. by rewrite Hread.
Qed.

End Loading.

Lemma load_image_params_unreadable_witness :
  let world := stored_params_world (Raise (Exception "Expecting value")) in
  load_image (Collaborators0:=world) "board.png" true true sample_board
  = (Raise (Exception "Expecting value"),
     mkGrBoard ∅ None (Some (384, 512)) (Some "board.png")
       (Some (384, 512)) (Some "board.png") false).
Proof.
  intros world.
  apply (load_image_params_unreadable (Collaborators0:=world) sample_board
           "board.png" true (384, 512) (Exception "Expecting value")
           eq_refl eq_refl eq_refl).
Defined.

Lemma load_image_reapplies_transform_witness :
  let rect := [PNum 0; PNum 0; PNum 1; PNum 1] in
  let s := set_params {["TRANSFORM" := PList rect]} sample_board in
  imread (Collaborators:=sample_world) "board.png" = Some (384, 512)
  ∧ ∃ s', load_image (Collaborators0:=sample_world) "board.png" false false s
          = (Ok false, s')
      ∧ _img s' = Some (374, 502) ∧ _src_img s' = Some (384, 512).
Proof.
  intros rect s.
  split; [reflexivity|].
  destruct (load_image_reapplies_transform (Collaborators0:=sample_world)
              s "board.png" (384, 512) eq_refl)
    as (Hwarp & _ & _).
  destruct (Hwarp rect (374, 502) eq_refl eq_refl eq_refl)
    as [(s' & Hrun & Himg & Hsrc & _) _].
  exists s'. split; [exact Hrun|]. split; [exact Himg | exact Hsrc].
Defined.

(** ** Resizing and the game record *)

Section ResizeRecord.
Context {image : Type} `{!Collaborators image} `{!Workshop image}.

Abbreviation board := (GrBoard image).

Lemma zero_based_same_grid (colour : string) (l l' : list stone) :
  Forall2 same_grid l l' → zero_based colour <$> l' = zero_based colour <$> l.
Proof.
  induction 1 as [|st st' l l' [Ha Hb] _ IH]; [done|].
  cbn. unfold zero_based at 1 3. by rewrite Ha, Hb, IH.
Qed.

(** X23: a resize that succeeds changes nothing of the game: on a board
    whose result has both stone lists, [save_sgf] gives the same record
    under the same name after [resize_board] as before it, and
    [board_size] is the same. *)
Theorem resize_board_keeps_record (s s' : board) (max_size : option Z)
    (scale : option (float * float)) :
  lists_present s →
  resize_board max_size scale s = (Ok tt, s') →
  (∀ filename, save_sgf s' filename = save_sgf s filename)
  ∧ board_size s' = board_size s
  ∧ length (all_stones s') = length (all_stones s).
Proof.
  intros Hpresent. rewrite resize_board_run.
  destruct (_img s) as [img|] eqn:Himg; [|done].
  destruct (resize2 img max_size) as [[img' sc]|e] eqn:Hresize; [|done].
  cbn zeta. destruct (_res s) as [r|] eqn:Hres.
  - destruct (Hpresent r Hres) as [[bs Hb] [ws Hw]]. rewrite Hb, Hw.
    pose proof (resize_stones_grid sc bs) as Hgb.
    pose proof (resize_stones_grid sc ws) as Hgw.
    destruct (resize_stones bs sc) as [[[]|e] bs1]; [|done].
    destruct (resize_stones ws sc) as [[[]|e] ws1]; [|done].
    cbn in *. intros [= <-]. split; [|split].
    + intros filename.
      rewrite (save_sgf_run s r bs ws filename) by done.
      rewrite (save_sgf_run _ (resized sc bs1 ws1 r) bs1 ws1 filename) by done.
      cbn. by rewrite !(zero_based_same_grid _ _ _ Hgb),
        !(zero_based_same_grid _ _ _ Hgw).
    + unfold board_size. cbn. by rewrite Hres.
    + unfold all_stones, black_stones, white_stones. cbn.
      rewrite Hres, Hb, Hw. cbn.
      rewrite !length_app, !length_fmap.
      by rewrite (Forall2_length _ _ _ Hgb), (Forall2_length _ _ _ Hgw).
  - intros [= <-]. split; [|split].
    + intros filename. unfold save_sgf. cbn. by rewrite Hres.
    + unfold board_size, params_get. cbn. by rewrite Hres.
    + unfold all_stones, black_stones, white_stones. cbn. by rewrite Hres.
Qed.

(** X25: [resize_board] leaves the board as it was when there is no
    image or the image resize raises, and with no result it replaces the
    image only. *)
Theorem resize_board_failure (s : board) (max_size : option Z)
    (scale : option (float * float)) :
  (_img s = None → ∃ e, resize_board max_size scale s = (Raise e, s))
  ∧ (∀ img e, _img s = Some img → resize2 img max_size = Raise e →
       resize_board max_size scale s = (Raise e, s))
  ∧ (∀ img img' sc, _img s = Some img →
       resize2 img max_size = Ok (img', sc) → _res s = None →
       resize_board max_size scale s = (Ok tt, set_img (Some img') s)).
Proof.
  unfold resize_board, mbind, M_bind, bind, gets, lift, modify, ret.
  split; [|split].
  - intros ->. by eexists.
  - intros img e -> Hresize. cbn. by rewrite Hresize.
  - intros img img' sc -> Hresize Hres. cbn. rewrite Hresize. cbn.
    by rewrite Hres.
Qed.

End ResizeRecord.

Lemma resize_board_keeps_record_witness :
  ∃ s', resize_board (Collaborators0:=sample_world) (Some 256) None
          played_board = (Ok tt, s')
    ∧ _img s' = Some (192, 256)
    ∧ save_sgf (Collaborators0:=sample_world) s' None
      = save_sgf (Collaborators0:=sample_world) played_board None.
Proof.
  eexists. split; [vm_compute; reflexivity|]. split; [reflexivity|].
  refine (proj1 (resize_board_keeps_record (Collaborators0:=sample_world)
                   played_board _ (Some 256) None _ _) None).
  - intros r [= <-]. split; by eexists.
  - vm_compute. reflexivity.
Defined.

(** ** Looking up a stone, continued *)

Section FindStoneErrors.
Context {image : Type} `{!Collaborators image}.

Abbreviation board := (GrBoard image).



End FindStoneErrors.


(** ** The status panel *)

Lemma int_of_float_ratio (a b : Z) :
  0 < b → int_of_float (inject_Z a / inject_Z b) = a ÷ b.
Proof.
  intros Hb. destruct b as [|b|b]; [lia| |lia].
  unfold int_of_float. cbn. by rewrite Z.mul_1_r.
Qed.

Lemma str_take_length (n : nat) (s : string) :
  String.length (str_take n s) = Nat.min n (String.length s).
Proof.
  revert s. induction n as [|n IH]; intros [|c r]; cbn; try done.
  by rewrite IH.
Qed.

Lemma str_take_0 (s : string) : str_take 0 s = EmptyString.
Proof. by destruct s. Qed.

Lemma length_append (s t : string) :
  String.length (s +:+ t) = (String.length s + String.length t)%nat.
Proof.
  induction s as [|c s IH]; [done|].
  change (S (String.length (s +:+ t)) = S (String.length s + String.length t)).
  by rewrite IH.
Qed.

Section StatusPanelProperties.
Context `{Font}.

(** X26: with a font whose ['W'] has a width, [set] shows the text as
    given when it is at most the window width less three such widths;
    otherwise it cuts [k] characters off the end, [k] being the excess
    divided by that width plus three, and appends ["..."]: the text
    shown is never longer than the one given unless that has fewer than
    three characters, and a text of at most [k] characters is shown as
    ["..."] alone. *)
Theorem status_set_truncates (width : Z) (text : string) (p : StatusPanel) :
  0 < measure "W" →
  let room := width - measure "W" * 3 in
  (measure text ≤ room →
     set width text p = inr (mkStatusPanel (_max_width p) text))
  ∧ (room < measure text →
       ∃ (k : nat) (p' : StatusPanel),
         set width text p = inr p'
         ∧ Z.of_nat k = (measure text - room) / measure "W" + 3
         ∧ (3 ≤ k)%nat
         ∧ status p' = str_take (String.length text - k) text +:+ "..."
         ∧ _max_width p' = _max_width p
         ∧ (3 ≤ String.length text →
              String.length (status p') ≤ String.length text)%nat
         ∧ (String.length text ≤ k → status p' = "...")%nat).
Proof.
  intros HW room. unfold set. fold room. split.
  - intros Hfits. by rewrite (proj2 (Z.ltb_ge _ _)) by lia.
  - intros Hlong. rewrite (proj2 (Z.ltb_lt _ _)) by lia.
    rewrite (proj2 (Z.eqb_neq _ _)) by lia.
    rewrite int_of_float_ratio by done.
    rewrite Z.quot_div_nonneg by lia.
    assert (0 ≤ (measure text - room) / measure "W") as Hquot
      by (apply Z.div_pos; lia).
    generalize dependent ((measure text - room) / measure "W").
    intros q Hquot.
    exists (Z.to_nat (q + 3)).
    eexists. split; [reflexivity|].
    split; [lia|]. split; [lia|].
    assert (slice_to (- (q + 3)) text
            = str_take (String.length text - Z.to_nat (q + 3)) text)
      as Hslice.
    { unfold slice_to. rewrite (proj2 (Z.ltb_lt _ _)) by lia.
      f_equal. lia. }
    unfold status. cbn [_var _max_width]. rewrite Hslice.
    split; [done|]. split; [done|]. split.
    + intros Hlen. rewrite length_append, str_take_length. cbn. lia.
    + intros Hlen.
      replace (String.length text - Z.to_nat (q + 3))%nat with 0%nat by lia.
      by rewrite str_take_0.
Qed.

End StatusPanelProperties.

Lemma status_set_truncates_witness :
  0 < measure (Font:=fixed_font) "W"
  ∧ (∃ p', set (H:=fixed_font) 100 "Loading board.png" (mkStatusPanel 0 EmptyString)
           = inr p'
       ∧ status p' = "Loading...")
  ∧ ∃ p', set (H:=fixed_font) 0 EmptyString (mkStatusPanel 0 EmptyString) = inr p'
       ∧ status p' = "...".
Proof.
  split; [reflexivity|].
  pose proof (status_set_truncates (H:=fixed_font)) as Hset.
  split.
  - destruct (Hset 100 "Loading board.png" (mkStatusPanel 0 EmptyString) eq_refl)
      as [_ Hlong].
    destruct (Hlong eq_refl) as (k & p' & Hrun & _).
    exists p'. split; [exact Hrun|]. vm_compute in Hrun.
    by injection Hrun as <-.
  - destruct (Hset 0 EmptyString (mkStatusPanel 0 EmptyString) eq_refl) as [_ Hlong].
    destruct (Hlong eq_refl) as (k & p' & Hrun & _).
    exists p'. split; [exact Hrun|]. vm_compute in Hrun.
    by injection Hrun as <-.
Defined.
